(** * Expection: one failure site, two signalling policies

    A shallow embedding of the header [Expection.hpp], of the error type and
    the [divide_by] operation of [testexpection.cpp], and of the operation of
    the demonstration program [example.cpp].

    Conventions of the embedding.
    - A C++ function is a computation ([Comp]): the events it causes and
      its outcome, which is a returned value or a thrown exception object.
    - In [Module Expection] the operations a user's types bring along (a
      static factory, a callable, a conversion, a constructor) complete
      with the value their concept names, and what they do besides is the
      list of events they cause; values are copied without a trace.
      [Module Full] reads the header again for operations that may throw
      and for types whose copy and move constructors are code of the
      user's.
    - A template type parameter is a [Type] argument, in the order of the
      template parameter list; a parameter pack [Args...] is one type [Args]
      (a tuple when the pack has several members).
    - A concept is a type class whose fields are the expressions of the
      [requires]-expression; a type satisfies the concept when it has an
      instance.
    - [if constexpr (P == Policy::Exceptions)] is a [match] on the policy
      whose return type depends on it. *)

From Stdlib Require Import ZArith QArith String List Bool SpecFloat.
From Stdlib Require Import Lia Qpower Qfield.
Import ListNotations.
Local Open Scope string_scope.
Local Open Scope list_scope.

(** ** The part of the C++ standard library the header relies on *)

Module std.

(** [void]: the type with no information. *)
Definition void : Type := unit.

(** [std::monostate]. *)
Inductive monostate : Type := Monostate.

(** [std::derived_from<std::exception>]: what a handler can ask of an
    exception type is its description, [what()]. *)
Class derived_from_exception (X : Type) : Type :=
  { what : X -> string }.

(** [std::runtime_error(what_arg)]. *)
Record runtime_error : Type := { what_arg : string }.

#[export] Instance runtime_error_exception : derived_from_exception runtime_error :=
  { what := what_arg }.

(** An exception object in flight: a value of some type derived from
    [std::exception]. *)
Inductive exception_object : Type :=
| Exception_object {X : Type} `{derived_from_exception X} (x : X).

Definition description (ex : exception_object) : string :=
  match ex with
  | Exception_object x => what x
  end.

(** [std::unexpected<E>]. *)
Record unexpected (E : Type) : Type := Unexpected { unexpected_error : E }.
Arguments Unexpected {E} _.
Arguments unexpected_error {E} _.

(** [std::expected<R, E>]: a value of [R] or an error of [E]. *)
Inductive expected (R E : Type) : Type :=
| Expected_value (v : R)
| Expected_error (e : E).
Arguments Expected_value {R E} _.
Arguments Expected_error {R E} _.

(** The converting constructor [expected(unexpected<E>)]. *)
Definition expected_of_unexpected {R E : Type} (u : unexpected E) : expected R E :=
  Expected_error (unexpected_error u).

Definition has_value {R E : Type} (x : expected R E) : bool :=
  match x with
  | Expected_value _ => true
  | Expected_error _ => false
  end.

(** [value()] and [error()], each on the case where it is defined. *)
Definition value {R E : Type} (x : expected R E) : option R :=
  match x with
  | Expected_value v => Some v
  | Expected_error _ => None
  end.

Definition error {R E : Type} (x : expected R E) : option E :=
  match x with
  | Expected_value _ => None
  | Expected_error e => Some e
  end.

(** [double]: IEEE 754 binary64. *)
Definition double : Type := spec_float.
Definition double_prec : Z := 53.
Definition double_emax : Z := 1024.

(** [int]; the operations below only compare and convert it. *)
Definition int : Type := Z.

(** [static_cast<double>(n)] for an [int] [n]; also the conversion of an
    [int] operand of [/] whose other operand is a [double]. *)
Definition double_of_int (n : int) : double :=
  binary_normalize double_prec double_emax n 0 false.

Definition double_div (x y : double) : double :=
  SFdiv double_prec double_emax x y.

End std.

Import std.

(** ** Computations: events, then a return or a throw *)

(** Something a piece of user code does that the rest of the program can
    observe, by name. *)
Definition Event : Type := string.

(** A value together with the events caused while making it. *)
Record Effectful (X : Type) : Type := Effect { events : list Event; result : X }.
Arguments Effect {X} _ _.
Arguments events {X} _.
Arguments result {X} _.

Definition pure {X : Type} (x : X) : Effectful X := Effect [] x.

Inductive Outcome (X : Type) : Type :=
| Returned (x : X)
| Thrown (ex : exception_object).
Arguments Returned {X} _.
Arguments Thrown {X} _.

Definition Comp (X : Type) : Type := Effectful (Outcome X).

(** [return x;] *)
Definition ret {X : Type} (x : X) : Comp X := Effect [] (Returned x).

(** [throw e;] for [e] of a type derived from [std::exception]. *)
Definition throw {X E : Type} `{derived_from_exception E} (e : E) : Comp X :=
  Effect [] (Thrown (Exception_object e)).

(** Running a user-supplied operation inside a computation. *)
Definition perform {X : Type} (e : Effectful X) : Comp X :=
  Effect (events e) (Returned (result e)).

(** Sequencing: the continuation runs only after a normal return. *)
Definition bind {X Y : Type} (c : Comp X) (k : X -> Comp Y) : Comp Y :=
  match result c with
  | Returned x => Effect (events c ++ events (k x)) (result (k x))
  | Thrown ex => Effect (events c) (Thrown ex)
  end.

Notation "x <- c ;; k" := (bind c (fun x => k))
  (at level 61, c at next level, right associativity).

(** ** Expection.hpp *)

Module Expection.

(** [enum class Policy { Exceptions, Expected };] *)
Inductive Policy : Type := Exceptions | Expected.

(** The build configuration: [EXPECTION_DEFAULTPOLICY] is not defined by the
    build ([None]) or is defined to the name of a policy. *)
Definition BuildConfig : Type := option Policy.

(** [#ifndef EXPECTION_DEFAULTPOLICY]
    [#define EXPECTION_DEFAULTPOLICY Exceptions]
    [#endif]
    [inline constexpr Policy DefaultPolicy = Policy::EXPECTION_DEFAULTPOLICY;] *)
Definition DefaultPolicy (EXPECTION_DEFAULTPOLICY : BuildConfig) : Policy :=
  match EXPECTION_DEFAULTPOLICY with
  | None => Exceptions
  | Some P => P
  end.

(** The policy of a template argument list that writes it ([Some P]) or
    leaves it to the default argument [Policy P = DefaultPolicy]. *)
Definition policy_argument (cfg : BuildConfig) (written : option Policy) : Policy :=
  match written with
  | Some P => P
  | None => DefaultPolicy cfg
  end.

(** [std::conditional_t<P == Policy::Exceptions, R, std::expected<R, E>>] *)
Definition ResultType (R E : Type) (P : Policy) : Type :=
  match P with
  | Exceptions => R
  | Expected => expected R E
  end.

(** *** Success helpers *)

Definition success (R E : Type) (P : Policy) (val : R) : Comp (ResultType R E P) :=
  match P return Comp (ResultType R E P) with
  | Exceptions => ret val
  | Expected => ret (Expected_value val)
  end.

(** The overload without a value, of type [ResultType<void, E, P>]. *)
Definition success_void (E : Type) (P : Policy) : Comp (ResultType void E P) :=
  match P return Comp (ResultType void E P) with
  | Exceptions => ret tt
  | Expected => ret (Expected_value tt)
  end.

(** *** Failure helpers *)

(** [concept ErrorFunctor<T, Unexpected, Args...>]: [T::exception(args...)]
    is of a type derived from [std::exception], and [T::unexpected(args...)]
    is a [std::unexpected<Unexpected>]. *)
Class ErrorFunctor (T Unexpected Args : Type) : Type :=
  { functor_exception_type : Type;
    functor_exception_derived :: derived_from_exception functor_exception_type;
    functor_exception : Args -> Effectful functor_exception_type;
    functor_unexpected : Args -> Effectful (unexpected Unexpected) }.
Arguments functor_exception_type T {Unexpected Args _}.
Arguments functor_exception T {Unexpected Args _} _.
Arguments functor_unexpected T {Unexpected Args _} _.

(** The functor overload, [make_failure<R, E, Functor, P>(args...)]. *)
Definition make_failure_functor (R E Functor : Type) (P : Policy) {Args : Type}
    `{ErrorFunctor Functor E Args} (args : Args) : Comp (ResultType R E P) :=
  match P return Comp (ResultType R E P) with
  | Exceptions =>
      ex <- perform (functor_exception Functor args) ;;
      throw ex
  | Expected =>
      u <- perform (functor_unexpected Functor args) ;;
      ret (expected_of_unexpected u)
  end.

(** [concept ExceptionCallable<T, Args...>]: calling a [T] on [args...]
    gives a value of a type derived from [std::exception]. *)
Class ExceptionCallable (T Args : Type) : Type :=
  { call_exception_type : Type;
    call_exception_derived :: derived_from_exception call_exception_type;
    call_exception : T -> Args -> Effectful call_exception_type }.

(** [concept UnexpectedCallable<T, Error, Args...>]: calling a [T] on
    [args...] gives a [std::unexpected<Error>]. *)
Class UnexpectedCallable (T Error Args : Type) : Type :=
  { call_unexpected : T -> Args -> Effectful (unexpected Error) }.

(** A function of the embedding is a callable: calling it applies it. *)
#[export] Instance function_ExceptionCallable (Args X : Type)
    `{derived_from_exception X} : ExceptionCallable (Args -> Effectful X) Args :=
  { call_exception_type := X; call_exception := fun t args => t args }.

#[export] Instance function_UnexpectedCallable (Args Error : Type) :
    UnexpectedCallable (Args -> Effectful (unexpected Error)) Error Args :=
  { call_unexpected := fun t args => t args }.

(** The callable overload,
    [make_failure<Result, Error, P>(unexpected, exception, args...)]. *)
Definition make_failure_callable (Result Error : Type) (P : Policy)
    {Unexpected Exception Args : Type}
    `{UnexpectedCallable Unexpected Error Args} `{ExceptionCallable Exception Args}
    (unexpected : Unexpected) (exception : Exception) (args : Args) :
    Comp (ResultType Result Error P) :=
  match P return Comp (ResultType Result Error P) with
  | Exceptions =>
      ex <- perform (call_exception exception args) ;;
      throw ex
  | Expected =>
      u <- perform (call_unexpected unexpected args) ;;
      ret (expected_of_unexpected u)
  end.

(** [concept ExceptionConstructable<T, Args...>]: the static member
    [T::exception(args...)] is of a type derived from [std::exception]. *)
Class ExceptionConstructable (T Args : Type) : Type :=
  { static_exception_type : Type;
    static_exception_derived :: derived_from_exception static_exception_type;
    static_exception : Args -> Effectful static_exception_type }.
Arguments static_exception_type T {Args _}.
Arguments static_exception T {Args _} _.

(** [T{args...}]: list-initialisation of a [T] from the arguments.  No
    concept of the header asks for it; the body of the in-place overload
    uses it in its [Expected] branch. *)
Class ListInitializable (T Args : Type) : Type :=
  { list_init : Args -> Effectful T }.
Arguments list_init T {Args _} _.

(** The in-place overload, [make_failure<Result, Error, P>(args...)]. *)
Definition make_failure (Result Error : Type) (P : Policy) {Args : Type}
    `{ExceptionConstructable Error Args} `{ListInitializable Error Args}
    (args : Args) : Comp (ResultType Result Error P) :=
  match P return Comp (ResultType Result Error P) with
  | Exceptions =>
      ex <- perform (static_exception Error args) ;;
      throw ex
  | Expected =>
      e <- perform (list_init Error args) ;;
      ret (expected_of_unexpected (Unexpected e))
  end.

(** [concept ExceptionConvertible<T>]: the member call [t.exception()] is of
    a type derived from [std::exception]. *)
Class ExceptionConvertible (T : Type) : Type :=
  { member_exception_type : Type;
    member_exception_derived :: derived_from_exception member_exception_type;
    member_exception : T -> Effectful member_exception_type }.

(** [failure<Result, P>(error)]: it takes an existing error object. *)
Definition failure (Result : Type) (P : Policy) {E : Type} `{ExceptionConvertible E}
    (error : E) : Comp (ResultType Result E P) :=
  match P return Comp (ResultType Result E P) with
  | Exceptions =>
      ex <- perform (member_exception error) ;;
      throw ex
  | Expected =>
      ret (expected_of_unexpected (Unexpected error))
  end.

End Expection.

Import Expection.

(** ** testexpection.cpp: the error type and the operation under test *)

Module TestExpection.

(** [struct DivideByError { enum class Kind { DivideByZero }; Kind kind; ... };] *)
Module DivideByError.

Inductive Kind : Type := DivideByZero.

Record t : Type := Build { kind : Kind }.

Definition err_to_str (kind : Kind) : string :=
  match kind with
  | DivideByZero => "Division by Zero"
  end.

Definition str (self : t) : string := err_to_str (kind self).

(** In-place exception construction: [static auto exception(Kind k)]. *)
Definition exception_of_kind (k : Kind) : runtime_error :=
  {| what_arg := err_to_str k |}.

(** Convert to exception: [auto exception()]. *)
Definition exception (self : t) : runtime_error :=
  {| what_arg := err_to_str (kind self) |}.

End DivideByError.

Abbreviation DivideByError := DivideByError.t.

#[export] Instance DivideByError_ExceptionConstructable :
    ExceptionConstructable DivideByError DivideByError.Kind :=
  { static_exception_type := runtime_error;
    static_exception := fun k => pure (DivideByError.exception_of_kind k) }.

(** [DivideByError{k}]: aggregate initialisation of the one member. *)
#[export] Instance DivideByError_ListInitializable :
    ListInitializable DivideByError DivideByError.Kind :=
  { list_init := fun k => pure (DivideByError.Build k) }.

#[export] Instance DivideByError_ExceptionConvertible :
    ExceptionConvertible DivideByError :=
  { member_exception_type := runtime_error;
    member_exception := fun self => pure (DivideByError.exception self) }.

(** [struct DivideByErrorFunctor]: two static members and no data. *)
Module DivideByErrorFunctor.

Inductive t : Type := .

Definition unexpected (k : DivideByError.Kind) : std.unexpected DivideByError :=
  Unexpected (DivideByError.Build k).

Definition exception (k : DivideByError.Kind) : runtime_error :=
  {| what_arg := DivideByError.err_to_str k |}.

End DivideByErrorFunctor.

Abbreviation DivideByErrorFunctor := DivideByErrorFunctor.t.

#[export] Instance DivideByErrorFunctor_ErrorFunctor :
    ErrorFunctor DivideByErrorFunctor DivideByError DivideByError.Kind :=
  { functor_exception_type := runtime_error;
    functor_exception := fun k => pure (DivideByErrorFunctor.exception k);
    functor_unexpected := fun k => pure (DivideByErrorFunctor.unexpected k) }.

(** [enum class FailureMethod { InPlace, Functor, Callable, Conversion };] *)
Inductive FailureMethod : Type := InPlace | Functor | Callable | Conversion.

(** [template <FailureMethod F, Policy P = DefaultPolicy>]
    [auto divide_by(int numerator, int denominator)]
    [-> ResultType<double, DivideByError, P>] *)
Definition divide_by (F : FailureMethod) (P : Policy) (numerator denominator : int) :
    Comp (ResultType double DivideByError P) :=
  let Result := double in
  let Error := DivideByError in
  if (denominator =? 0)%Z then
    match F with
    | InPlace =>
        make_failure Result Error P DivideByError.DivideByZero
    | Functor =>
        make_failure_functor Result Error DivideByErrorFunctor P
          DivideByError.DivideByZero
    | Callable =>
        let make_unexpected := fun k : DivideByError.Kind =>
          pure (Unexpected (DivideByError.Build k)) in
        let make_exception := fun k : DivideByError.Kind =>
          pure {| what_arg := DivideByError.err_to_str k |} in
        make_failure_callable Result Error P make_unexpected make_exception
          DivideByError.DivideByZero
    | Conversion =>
        let err := DivideByError.Build DivideByError.DivideByZero in
        failure Result P err
    end
  else
    success Result Error P
      (double_div (double_of_int numerator) (double_of_int denominator)).

(** A call site: [divide_by<F, P>(n, d)] with the policy written, or
    [divide_by<F>(n, d)] with the policy left to the default. *)
Definition divide_by_call (cfg : BuildConfig) (F : FailureMethod)
    (written : option Policy) (numerator denominator : int) :
    Comp (ResultType double DivideByError (policy_argument cfg written)) :=
  divide_by F (policy_argument cfg written) numerator denominator.

End TestExpection.

(** ** example.cpp: the operation of the demonstration program *)

Module ExampleCpp.

(** This file's own [struct DivideByError]: the in-place factory only. *)
Module DivideByError.

Inductive Kind : Type := DivideByZero.

Record t : Type := Build { kind : Kind }.

Definition err_to_str (kind : Kind) : string :=
  match kind with
  | DivideByZero => "Division by Zero"
  end.

Definition str (self : t) : string := err_to_str (kind self).

(** In-place exception construction: [static auto exception(Kind k)]. *)
Definition exception_of_kind (k : Kind) : runtime_error :=
  {| what_arg := err_to_str k |}.

End DivideByError.

Abbreviation DivideByError := DivideByError.t.

#[export] Instance DivideByError_ExceptionConstructable :
    ExceptionConstructable DivideByError DivideByError.Kind :=
  { static_exception_type := runtime_error;
    static_exception := fun k => pure (DivideByError.exception_of_kind k) }.

#[export] Instance DivideByError_ListInitializable :
    ListInitializable DivideByError DivideByError.Kind :=
  { list_init := fun k => pure (DivideByError.Build k) }.

(** The implicit conversion that a [return] statement applies to an operand
    of type [ResultType<double, DivideByError, From>] in a function declared
    to return [ResultType<double, DivideByError, To>]: nothing to do when
    the two agree; the converting constructor of [std::expected] from a
    [double]; and none from a [std::expected] to a [double], so that the
    function is ill-formed. *)
Definition return_conversion (From To : Policy) :
    option (ResultType double DivideByError From -> ResultType double DivideByError To) :=
  match From, To with
  | Exceptions, Exceptions => Some (fun val => val)
  | Expected, Expected => Some (fun val => val)
  | Exceptions, Expected => Some (fun val => Expected_value val)
  | Expected, Exceptions => None
  end.

(** [return c;] where the value of [c] is converted on the way out. *)
Definition return_converted {X Y : Type} (conv : X -> Y) (c : Comp X) : Comp Y :=
  x <- c ;; ret (conv x).

(** [template <Policy P = DefaultPolicy> auto divide_by(int, int)]
    [-> ResultType<double, DivideByError, P>].  The failure is built with the
    policy [P]; the success is built by [success<Result, Error>(val)], whose
    policy is the default of the build.  [None]: the instantiation does not
    compile. *)
Definition divide_by (cfg : BuildConfig) (P : Policy) (numerator denominator : int) :
    option (Comp (ResultType double DivideByError P)) :=
  let Result := double in
  let Error := DivideByError in
  match return_conversion (DefaultPolicy cfg) P with
  | None => None
  | Some conv =>
      Some
        (if (denominator =? 0)%Z then
           make_failure Result Error P DivideByError.DivideByZero
         else
           let val := double_div (double_of_int numerator) (double_of_int denominator) in
           return_converted conv (success Result Error (DefaultPolicy cfg) val))
  end.

End ExampleCpp.

(** ** Which overloads a call can select

    Every overload of [make_failure], and [failure], is constrained:
    - the functor overload by [requires ErrorFunctor<Functor, E, Args...>];
    - the callable overload by [requires UnexpectedCallable<Unexpected,
      Error, Args...> && ExceptionCallable<Exception, Args...>];
    - the in-place overload by [requires ExceptionConstructable<Error,
      Args...>];
    - [failure] by its template parameter [ExceptionConvertible E].
    A call names its candidates by its shape.  A third template argument
    that is a type fits the functor overload only, one that is a policy fits
    the other two.  The callable overload takes two leading function
    arguments before the pack, and the in-place overload takes all the
    function arguments as its pack.  A candidate is viable when the types of
    the call satisfy its constraint, that is, when the instance exists. *)

Inductive Overload : Type :=
| functor_overload
| callable_overload
| in_place_overload
| conversion_overload.

(** The calls of the failure constructors, by shape:
    [make_failure<Result, Error, Functor, P>(args...)],
    [make_failure<Result, Error, P>(args...)],
    [make_failure<Result, Error, P>(unexpected, exception, args...)] and
    [failure<Result, P>(error)]. *)
Inductive CallShape : Type :=
| call_with_functor
| call_with_pack
| call_with_leading
| call_failure.

Definition satisfied {C : Type} (instance : option C) : bool :=
  match instance with
  | Some _ => true
  | None => false
  end.

(** One candidate: viable when its constraint is satisfied. *)
Definition candidate (constraint : bool) (o : Overload) : list Overload :=
  if constraint then [o] else [].

Section Overloads.

Context (Error Functor Unexpected Exception Args : Type).

(** What the types of a call site satisfy: for each concept its instance,
    when there is one.  The static factory is asked for with the pack
    [Args...] and with the pack [Unexpected, Exception, Args...]. *)
Record Capabilities : Type :=
  { satisfies_ErrorFunctor : option (ErrorFunctor Functor Error Args);
    satisfies_UnexpectedCallable : option (UnexpectedCallable Unexpected Error Args);
    satisfies_ExceptionCallable : option (ExceptionCallable Exception Args);
    satisfies_ExceptionConstructable : option (ExceptionConstructable Error Args);
    satisfies_ExceptionConstructable_leading :
      option (ExceptionConstructable Error (Unexpected * Exception * Args));
    satisfies_ExceptionConvertible : option (ExceptionConvertible Error) }.

(** The error type, with the helper type and the callables at hand, has
    none of the four capability shapes: no static factory, no functor, not
    both callables, no conversion. *)
Definition no_capability (caps : Capabilities) : Prop :=
  satisfies_ExceptionConstructable caps = None /\
  satisfies_ExceptionConstructable_leading caps = None /\
  satisfies_ErrorFunctor caps = None /\
  (satisfies_UnexpectedCallable caps = None \/ satisfies_ExceptionCallable caps = None) /\
  satisfies_ExceptionConvertible caps = None.

(** The viable overloads of a call.  The compiler rejects a call that has
    none. *)
Definition viable_overloads (caps : Capabilities) (call : CallShape) : list Overload :=
  match call with
  | call_with_functor =>
      candidate (satisfied (satisfies_ErrorFunctor caps)) functor_overload
  | call_with_pack =>
      candidate (satisfied (satisfies_ExceptionConstructable caps)) in_place_overload
  | call_with_leading =>
      candidate
        (satisfied (satisfies_UnexpectedCallable caps) &&
         satisfied (satisfies_ExceptionCallable caps))
        callable_overload ++
      candidate (satisfied (satisfies_ExceptionConstructable_leading caps))
        in_place_overload
  | call_failure =>
      candidate (satisfied (satisfies_ExceptionConvertible caps)) conversion_overload
  end.

End Overloads.

(** A type with no capability at all: [std::monostate], with callables that
    are not callable. *)
Definition no_capabilities :
    Capabilities monostate monostate monostate monostate unit :=
  {| satisfies_ErrorFunctor := None;
     satisfies_UnexpectedCallable := None;
     satisfies_ExceptionCallable := None;
     satisfies_ExceptionConstructable := None;
     satisfies_ExceptionConstructable_leading := None;
     satisfies_ExceptionConvertible := None |}.

(** What the types of [testexpection.cpp] satisfy, for the argument
    [DivideByError::Kind] and the two lambdas of [divide_by]:
    [DivideByError] has the static factory of a [Kind] (and none of two
    lambdas and a [Kind]) and the conversion, [DivideByErrorFunctor] is a
    functor, and the lambdas are the two callables. *)
Definition DivideByError_capabilities :
    Capabilities TestExpection.DivideByError TestExpection.DivideByErrorFunctor
      (TestExpection.DivideByError.Kind ->
       Effectful (unexpected TestExpection.DivideByError))
      (TestExpection.DivideByError.Kind -> Effectful runtime_error)
      TestExpection.DivideByError.Kind :=
  {| satisfies_ErrorFunctor := Some TestExpection.DivideByErrorFunctor_ErrorFunctor;
     satisfies_UnexpectedCallable := Some (function_UnexpectedCallable _ _);
     satisfies_ExceptionCallable := Some (function_ExceptionCallable _ _);
     satisfies_ExceptionConstructable :=
       Some TestExpection.DivideByError_ExceptionConstructable;
     satisfies_ExceptionConstructable_leading := None;
     satisfies_ExceptionConvertible :=
       Some TestExpection.DivideByError_ExceptionConvertible |}.

(** ** What a caller observes *)

(** The channel an outcome arrives on. *)
Inductive Channel : Type := NormalReturn | ControlTransfer.

Definition channel {X : Type} (c : Comp X) : Channel :=
  match result c with
  | Returned _ => NormalReturn
  | Thrown _ => ControlTransfer
  end.

(** [catch (std::exception &ex) { ... ex.what() ... }] *)
Definition caught_what {X : Type} (c : Comp X) : option string :=
  match result c with
  | Returned _ => None
  | Thrown ex => Some (description ex)
  end.

(** The error that a returned [std::expected] holds. *)
Definition returned_error {R E : Type} (c : Comp (expected R E)) : option E :=
  match result c with
  | Returned x => error x
  | Thrown _ => None
  end.

(** The value that a returned [std::expected] holds. *)
Definition returned_value {R E : Type} (c : Comp (expected R E)) : option R :=
  match result c with
  | Returned x => value x
  | Thrown _ => None
  end.

(** What a failed [divide_by] tells its caller, whichever channel carries
    it: [ex.what()] of the caught exception, or [result.error().str()]. *)
Definition failure_content (P : Policy) :
    Comp (ResultType double TestExpection.DivideByError P) -> option string :=
  match P with
  | Exceptions => fun c => caught_what c
  | Expected => fun c => option_map TestExpection.DivideByError.str (returned_error c)
  end.

(** The [double] 0.5. *)
Definition one_half : double := S754_finite false 4503599627370496 (-53).

(** The rational that a finite [double] stands for. *)
Definition double_to_Q (x : double) : option Q :=
  match x with
  | S754_zero _ => Some 0%Q
  | S754_finite s m e =>
      Some (Qred ((if s then -1 else 1) * inject_Z (Zpos m) * Qpower 2 e))
  | S754_infinity _ | S754_nan => None
  end.

(** Arguments that are logically equivalent for the four strategies: the
    helper type, the unexpected-callable and the error object give the
    error that the arguments [args] list-initialise, and each way of making
    the exception gives it the description of [Error::exception(args...)]. *)
Definition equivalent_arguments {Error Functor Unexpected Exception Args : Type}
    `{ExceptionConstructable Error Args} `{ListInitializable Error Args}
    `{ErrorFunctor Functor Error Args}
    `{UnexpectedCallable Unexpected Error Args} `{ExceptionCallable Exception Args}
    `{ExceptionConvertible Error}
    (unexpected : Unexpected) (exception : Exception) (error : Error) (args : Args) :
    Prop :=
  unexpected_error (result (functor_unexpected Functor args)) =
    result (list_init Error args) /\
  unexpected_error (result (call_unexpected unexpected args)) =
    result (list_init Error args) /\
  error = result (list_init Error args) /\
  what (result (functor_exception Functor args)) =
    what (result (static_exception Error args)) /\
  what (result (call_exception exception args)) =
    what (result (static_exception Error args)) /\
  what (result (member_exception error)) =
    what (result (static_exception Error args)).

(** ** example.cpp: the program

    [std::println] writes a line; the lines written are the events of the
    program. *)

(** [std::println("...")] of a line already formatted. *)
Definition println (line : string) : Comp unit := Effect [line] (Returned tt).

(** [try { body } catch (std::exception &ex) { handler }]: every exception
    object is of a type derived from [std::exception], so the handler takes
    whatever the body throws. *)
Definition try_catch {X : Type} (body : Comp X) (handler : exception_object -> Comp X) :
    Comp X :=
  match result body with
  | Returned _ => body
  | Thrown ex => Effect (events body ++ events (handler ex)) (result (handler ex))
  end.

Section Main.

(** [std::format("{}", x)] for a [double] [x]. *)
Variable format_double : double -> string.

(** [std::println("{}", x)] for [x] of type [ResultType<double,
    DivideByError, P>]: a [double] is formattable, a [std::expected] is
    not, and a call that prints one does not compile. *)
Definition formatter (P : Policy) :
    option (ResultType double ExampleCpp.DivideByError P -> string) :=
  match P with
  | Exceptions => Some format_double
  | Expected => None
  end.

(** [int main()].  [None]: the program does not compile. *)
Definition main (cfg : BuildConfig) : option (Comp int) :=
  let Default := DefaultPolicy cfg in
  match
    ExampleCpp.divide_by cfg Default 1%Z 2%Z,
    ExampleCpp.divide_by cfg Default 1%Z 0%Z,
    formatter Default,
    ExampleCpp.divide_by cfg Expected 1%Z 0%Z,
    ExampleCpp.divide_by cfg Exceptions 1%Z 0%Z
  with
  | Some divide_by_1_2, Some divide_by_1_0, Some format,
    Some divide_by_Expected_1_0, Some divide_by_Exceptions_1_0 =>
      Some
        (success <- divide_by_1_2 ;;
         _ <- println (format success) ;;
         _ <- try_catch
                (error <- divide_by_1_0 ;;
                 println (format error))
                (fun ex => println ("Caught: " ++ description ex)%string) ;;
         ret1 <- divide_by_Expected_1_0 ;;
         _ <- match ret1 with
              | Expected_value v => println (format_double v)
              | Expected_error e =>
                  println ("Unexpected: " ++ ExampleCpp.DivideByError.str e)%string
              end ;;
         _ <- try_catch
                (ret2 <- divide_by_Exceptions_1_0 ;;
                 println (format_double ret2))
                (fun ex => println ("Caught: " ++ description ex)%string) ;;
         ret 0%Z)
  | _, _, _, _, _ => None
  end.

End Main.

(** ** The range of [int] *)

Definition INT_MIN : Z := (- 2 ^ 31)%Z.
Definition INT_MAX : Z := (2 ^ 31 - 1)%Z.

(** The values an [int] takes. *)
Definition representable (n : Z) : Prop := (INT_MIN <= n <= INT_MAX)%Z.

(** A [double] that is a number: a zero or a finite non-zero value, neither
    an infinity nor a NaN. *)
Definition is_number (x : double) : bool :=
  match x with
  | S754_zero _ | S754_finite _ _ _ => true
  | S754_infinity _ | S754_nan => false
  end.

(** [-x] on a [double]. *)
Definition double_opp (x : double) : double := SFopp x.

(** The [double] 1.0. *)
Definition one : double := S754_finite false 4503599627370496 (-52).

(** The mantissa and the exponent of the [double] that holds the integer
    [p], for [p] below 2^53: [p] shifted left until it fills 53 bits. *)
Definition double_mantissa (p : positive) : positive :=
  match (53 - Zpos (digits2_pos p))%Z with
  | Zpos d => Pos.iter xO p d
  | _ => p
  end.

Definition double_exponent (p : positive) : Z := (Zpos (digits2_pos p) - 53)%Z.

(** [std::signbit(x)]. *)
Definition signbit (x : double) : bool :=
  match x with
  | S754_zero s | S754_infinity s | S754_finite s _ _ => s
  | S754_nan => false
  end.

(** ** The header again, with user code that throws and constructors that run

    [Module Expection] reads the header for user types whose operations
    complete and whose values are copied without a trace.  This module reads
    the same lines without the two assumptions: an operation of the user's
    (a static factory, a functor member, a callable, a conversion,
    [Error{args...}]) is a computation, which may throw; and constructing a
    value from another runs the copy or the move constructor of its type,
    which is user code as well. *)

Module Full.

(** The copy constructor [T(const T&)] and the move constructor [T(T&&)].
    A type without a move constructor of its own moves by copying. *)
Class CopyConstructible (T : Type) : Type :=
  { copy_construct : T -> Comp T }.

Class MoveConstructible (T : Type) : Type :=
  { move_construct : T -> Comp T }.

(** A trivially copyable type, such as [double] or an aggregate of an
    enumeration: copying and moving take the value over and do nothing
    else. *)
Definition trivial_copy (T : Type) : CopyConstructible T :=
  {| copy_construct := fun x => ret x |}.

Definition trivial_move (T : Type) : MoveConstructible T :=
  {| move_construct := fun x => ret x |}.

(** A function argument passed by value, by its value category: a parameter
    is copied from an lvalue, moved from an xvalue and initialised in place
    by a prvalue. *)
Inductive Argument (T : Type) : Type :=
| lvalue {c : CopyConstructible T} (x : T)
| xvalue {m : MoveConstructible T} (x : T)
| prvalue (x : T).
Arguments lvalue {T c} x.
Arguments xvalue {T m} x.
Arguments prvalue {T} x.

Definition parameter {T : Type} (argument : Argument T) : Comp T :=
  match argument with
  | lvalue x => copy_construct x
  | xvalue x => move_construct x
  | prvalue x => ret x
  end.

(** An argument bound to a forwarding reference [E &&error]: nothing is
    constructed at the call; [std::forward<E>(error)] is an lvalue or an
    rvalue as the argument was. *)
Inductive Forwarded (T : Type) : Type :=
| forwarded_lvalue {c : CopyConstructible T} (x : T)
| forwarded_rvalue (x : T).
Arguments forwarded_lvalue {T c} x.
Arguments forwarded_rvalue {T} x.

Definition referred {T : Type} (error : Forwarded T) : T :=
  match error with
  | forwarded_lvalue x => x
  | forwarded_rvalue x => x
  end.

(** Constructing a [T] from [std::forward<E>(error)]. *)
Definition construct_from {T : Type} `{MoveConstructible T} (error : Forwarded T) :
    Comp T :=
  match error with
  | forwarded_lvalue x => copy_construct x
  | forwarded_rvalue x => move_construct x
  end.

(** *** Success helpers *)

(** The constructor of [R] that the branch kept by [if constexpr] uses:
    [return val;] moves the parameter into the returned value, and
    [std::expected<R, E>(val)] copies the lvalue [val] into the result, so
    that [R] has to be copy constructible under [Expected]. *)
Definition value_constructor (P : Policy) (R : Type) : Type :=
  match P with
  | Exceptions => MoveConstructible R
  | Expected => CopyConstructible R
  end.

(** [success<R, E, P>(argument)], with the initialisation of the parameter
    [R val]. *)
Definition success (R E : Type) (P : Policy) (constructor : value_constructor P R)
    (argument : Argument R) : Comp (ResultType R E P) :=
  val <- parameter argument ;;
  match P return value_constructor P R -> Comp (ResultType R E P) with
  | Exceptions => fun move =>
      returned <- @move_construct R move val ;;
      ret returned
  | Expected => fun copy =>
      held <- @copy_construct R copy val ;;
      ret (Expected_value held)
  end constructor.

(** *** Failure helpers *)

(** [concept ErrorFunctor<T, Unexpected, Args...>] *)
Class ErrorFunctor (T Unexpected Args : Type) : Type :=
  { functor_exception_type : Type;
    functor_exception_derived : derived_from_exception functor_exception_type;
    functor_exception : Args -> Comp functor_exception_type;
    functor_unexpected : Args -> Comp (unexpected Unexpected) }.
Arguments functor_exception_type T {Unexpected Args _}.
Arguments functor_exception_derived T {Unexpected Args _}.
Arguments functor_exception T {Unexpected Args _} _.
Arguments functor_unexpected T {Unexpected Args _} _.

(** The converting constructor [expected(unexpected<E>&&)]: it moves the
    error out of the [std::unexpected]. *)
Definition expected_of_unexpected {R E : Type} `{MoveConstructible E}
    (u : unexpected E) : Comp (expected R E) :=
  e <- move_construct (unexpected_error u) ;;
  ret (Expected_error e).

(** The functor overload, [make_failure<R, E, Functor, P>(args...)]. *)
Definition make_failure_functor (R E Functor : Type) (P : Policy) {Args : Type}
    `{ErrorFunctor Functor E Args} `{MoveConstructible E} (args : Args) :
    Comp (ResultType R E P) :=
  match P return Comp (ResultType R E P) with
  | Exceptions =>
      ex <- functor_exception Functor args ;;
      throw (H := functor_exception_derived Functor) ex
  | Expected =>
      u <- functor_unexpected Functor args ;;
      expected_of_unexpected u
  end.

(** [concept ExceptionCallable<T, Args...>] *)
Class ExceptionCallable (T Args : Type) : Type :=
  { call_exception_type : Type;
    call_exception_derived : derived_from_exception call_exception_type;
    call_exception : T -> Args -> Comp call_exception_type }.

(** [concept UnexpectedCallable<T, Error, Args...>] *)
Class UnexpectedCallable (T Error Args : Type) : Type :=
  { call_unexpected : T -> Args -> Comp (unexpected Error) }.

(** A function of the embedding is a callable: calling it applies it. *)
Definition function_ExceptionCallable (Args X : Type)
    (d : derived_from_exception X) : ExceptionCallable (Args -> Comp X) Args :=
  {| call_exception_type := X;
     call_exception_derived := d;
     call_exception := fun t args => t args |}.

Definition function_UnexpectedCallable (Args Error : Type) :
    UnexpectedCallable (Args -> Comp (unexpected Error)) Error Args :=
  {| call_unexpected := fun t args => t args |}.

(** The callable overload,
    [make_failure<Result, Error, P>(unexpected, exception, args...)]. *)
Definition make_failure_callable (Result Error : Type) (P : Policy)
    {Unexpected Exception Args : Type}
    `{UnexpectedCallable Unexpected Error Args} `{ExceptionCallable Exception Args}
    `{MoveConstructible Error}
    (unexpected : Unexpected) (exception : Exception) (args : Args) :
    Comp (ResultType Result Error P) :=
  match P return Comp (ResultType Result Error P) with
  | Exceptions =>
      ex <- call_exception exception args ;;
      throw (H := call_exception_derived) ex
  | Expected =>
      u <- call_unexpected unexpected args ;;
      expected_of_unexpected u
  end.

(** [concept ExceptionConstructable<T, Args...>] *)
Class ExceptionConstructable (T Args : Type) : Type :=
  { static_exception_type : Type;
    static_exception_derived : derived_from_exception static_exception_type;
    static_exception : Args -> Comp static_exception_type }.
Arguments static_exception_type T {Args _}.
Arguments static_exception_derived T {Args _}.
Arguments static_exception T {Args _} _.

(** [T{args...}] *)
Class ListInitializable (T Args : Type) : Type :=
  { list_init : Args -> Comp T }.
Arguments list_init T {Args _} _.

(** The in-place overload, [make_failure<Result, Error, P>(args...)].
    [std::unexpected(Error{args...})] moves the new error into the
    [std::unexpected], and the [return] moves it on into the result. *)
Definition make_failure (Result Error : Type) (P : Policy) {Args : Type}
    `{ExceptionConstructable Error Args} `{ListInitializable Error Args}
    `{MoveConstructible Error} (args : Args) : Comp (ResultType Result Error P) :=
  match P return Comp (ResultType Result Error P) with
  | Exceptions =>
      ex <- static_exception Error args ;;
      throw (H := static_exception_derived Error) ex
  | Expected =>
      initialised <- list_init Error args ;;
      e <- move_construct initialised ;;
      expected_of_unexpected (Unexpected e)
  end.

(** [concept ExceptionConvertible<T>] *)
Class ExceptionConvertible (T : Type) : Type :=
  { member_exception_type : Type;
    member_exception_derived : derived_from_exception member_exception_type;
    member_exception : T -> Comp member_exception_type }.

(** [failure<Result, P>(error)].
    [std::unexpected<std::decay_t<E>>(std::forward<E>(error))] copies or
    moves the error object into the [std::unexpected], and the [return]
    moves it on into the result. *)
Definition failure (Result : Type) (P : Policy) {E : Type} `{ExceptionConvertible E}
    `{MoveConstructible E} (error : Forwarded E) : Comp (ResultType Result E P) :=
  match P return Comp (ResultType Result E P) with
  | Exceptions =>
      ex <- member_exception (referred error) ;;
      throw (H := member_exception_derived) ex
  | Expected =>
      e <- construct_from error ;;
      expected_of_unexpected (Unexpected e)
  end.

End Full.

(** User types as [Module Expection] takes them, seen from [Module Full]:
    their operations complete, and the error is trivially copyable. *)
Definition completing_ErrorFunctor {T Unexpected Args : Type}
    (c : ErrorFunctor T Unexpected Args) : Full.ErrorFunctor T Unexpected Args :=
  {| Full.functor_exception_type := functor_exception_type T;
     Full.functor_exception_derived := functor_exception_derived;
     Full.functor_exception := fun args => perform (functor_exception T args);
     Full.functor_unexpected := fun args => perform (functor_unexpected T args) |}.

Definition completing_ExceptionCallable {T Args : Type}
    (c : ExceptionCallable T Args) : Full.ExceptionCallable T Args :=
  {| Full.call_exception_type := call_exception_type;
     Full.call_exception_derived := call_exception_derived;
     Full.call_exception := fun t args => perform (call_exception t args) |}.

Definition completing_UnexpectedCallable {T Error Args : Type}
    (c : UnexpectedCallable T Error Args) : Full.UnexpectedCallable T Error Args :=
  {| Full.call_unexpected := fun t args => perform (call_unexpected t args) |}.

Definition completing_ExceptionConstructable {T Args : Type}
    (c : ExceptionConstructable T Args) : Full.ExceptionConstructable T Args :=
  {| Full.static_exception_type := static_exception_type T;
     Full.static_exception_derived := static_exception_derived;
     Full.static_exception := fun args => perform (static_exception T args) |}.

Definition completing_ListInitializable {T Args : Type}
    (c : ListInitializable T Args) : Full.ListInitializable T Args :=
  {| Full.list_init := fun args => perform (list_init T args) |}.

Definition completing_ExceptionConvertible {T : Type}
    (c : ExceptionConvertible T) : Full.ExceptionConvertible T :=
  {| Full.member_exception_type := member_exception_type;
     Full.member_exception_derived := member_exception_derived;
     Full.member_exception := fun t => perform (member_exception t) |}.

(** Two user types that do not keep to those assumptions: a value whose copy
    constructor writes a line, and one whose copy constructor throws. *)
Definition logging_copy (T : Type) (line : string) : Full.CopyConstructible T :=
  {| Full.copy_construct := fun x => Effect [line] (Returned x) |}.

Definition throwing_copy (T : Type) (what_arg : string) : Full.CopyConstructible T :=
  {| Full.copy_construct := fun _ => throw {| what_arg := what_arg |} |}.

(** The constructors of a trivially copyable [R], for either policy. *)
Definition trivial_constructor (P : Policy) (R : Type) : Full.value_constructor P R :=
  match P with
  | Exceptions => Full.trivial_move R
  | Expected => Full.trivial_copy R
  end.

(** A callable pair whose unexpected-callable throws instead of making the
    error, as one that allocates may. *)
Definition throwing_unexpected : unit -> Comp (unexpected string) :=
  fun _ => throw {| what_arg := "std::bad_alloc" |}.

Definition plain_exception : unit -> Comp runtime_error :=
  fun _ => ret {| what_arg := "failed" |}.

(** * Properties *)

(** ** Computations *)

Lemma bind_perform_throw (X Y : Type) (d : derived_from_exception X) (e : Effectful X) :
  (ex <- perform e ;; throw ex) =
  Effect (events e) (@Thrown Y (Exception_object (result e))).
Proof. unfold bind, perform, throw. simpl. rewrite app_nil_r. reflexivity. Qed.

Lemma bind_perform_ret (X Y : Type) (e : Effectful X) (f : X -> Y) :
  (x <- perform e ;; ret (f x)) = Effect (events e) (Returned (f (result e))).
Proof. unfold bind, perform, ret. simpl. rewrite app_nil_r. reflexivity. Qed.

(** A computation returns or throws, and does not do both. *)
Lemma Outcome_cases (X : Type) (c : Comp X) :
  (channel c = NormalReturn /\ (exists x, result c = Returned x) /\
   ~ (exists ex, result c = Thrown ex)) \/
  (channel c = ControlTransfer /\ (exists ex, result c = Thrown ex) /\
   ~ (exists x, result c = Returned x)).
Proof.
  unfold channel. destruct (result c) as [x | ex].
  - left. repeat split; [exists x; reflexivity | intros [ex' Hex]; discriminate Hex].
  - right. repeat split; [exists ex; reflexivity | intros [x' Hx]; discriminate Hx].
Qed.

(** ** The result-type resolver *)

Lemma policy_argument_written (cfg : BuildConfig) (P : Policy) :
  policy_argument cfg (Some P) = P.
Proof. reflexivity. Qed.

Lemma policy_argument_defaulted (cfg : BuildConfig) :
  policy_argument cfg None = DefaultPolicy cfg.
Proof. reflexivity. Qed.

(** Absent an override the default policy is [Exceptions]. *)
Lemma DefaultPolicy_unset : DefaultPolicy None = Exceptions.
Proof. reflexivity. Qed.

(** A [std::expected] holds exactly one of its two cases, and [has_value]
    tells which. *)
Lemma expected_cases (R E : Type) (x : expected R E) :
  (exists v, x = Expected_value v /\ has_value x = true /\
             value x = Some v /\ error x = None) \/
  (exists e, x = Expected_error e /\ has_value x = false /\
             value x = None /\ error x = Some e).
Proof.
  destruct x as [v | e]; [left; exists v | right; exists e]; repeat split.
Qed.

(** C3. The resolver: under [Exceptions] the resolved type is exactly [R]
    ([void] stays [void]) and carries nothing of [E]; under [Expected] it is
    the tagged union [std::expected<R, E>], which can be asked which case it
    holds; and equal (R, E, Policy) triples resolve to equal types. *)
Theorem ResultType_resolver :
  (forall R E : Type, ResultType R E Exceptions = R) /\
  (forall E : Type, ResultType void E Exceptions = void) /\
  (forall R E E' : Type, ResultType R E Exceptions = ResultType R E' Exceptions) /\
  (forall R E : Type, ResultType R E Expected = expected R E) /\
  (forall (R E : Type) (x : ResultType R E Expected),
      (exists v : R, x = Expected_value v /\ has_value x = true) \/
      (exists e : E, x = Expected_error e /\ has_value x = false)) /\
  (forall (R R' E E' : Type) (P P' : Policy),
      R = R' -> E = E' -> P = P' -> ResultType R E P = ResultType R' E' P').
Proof.
  repeat split; try reflexivity.
  - intros R E x. simpl in x.
    destruct (expected_cases R E x) as [(v & -> & Hv & _) | (e & -> & He & _)].
    + left. exists v. split; [reflexivity | exact Hv].
    + right. exists e. split; [reflexivity | exact He].
  - intros R R' E E' P P' HR HE HP. rewrite HR, HE, HP. reflexivity.
Qed.

Lemma ResultType_resolver_witness :
  ResultType double monostate Expected = ResultType double monostate Expected.
Proof.
  apply (proj2 (proj2 (proj2 (proj2 (proj2 ResultType_resolver))))); reflexivity.
Defined.

(** ** The success constructor *)

Lemma success_returns (R E : Type) (P : Policy) (v : R) :
  channel (success R E P v) = NormalReturn /\ events (success R E P v) = [].
Proof. destruct P; split; reflexivity. Qed.

Lemma success_void_returns (E : Type) (P : Policy) :
  channel (success_void E P) = NormalReturn /\ events (success_void E P) = [].
Proof. destruct P; split; reflexivity. Qed.

(** *** [success] with the constructors of [R]

    The lemmas above are about values copied without a trace, as a
    [double] is.  For any [R], [success] runs the constructors of [R]. *)

Lemma Full_success_trivial (R E : Type) (P : Policy) (v : R) :
  Full.success R E P (trivial_constructor P R) (Full.prvalue v) = success R E P v.
Proof. destruct P; reflexivity. Qed.

Lemma Full_success_Expected (R E : Type) (c : Full.CopyConstructible R) (v : R) :
  events (Full.success R E Expected c (Full.prvalue v)) =
    events (Full.copy_construct v) /\
  result (Full.success R E Expected c (Full.prvalue v)) =
    match result (Full.copy_construct v) with
    | Returned held => Returned (Expected_value held)
    | Thrown ex => Thrown ex
    end.
Proof.
  unfold Full.success, bind, ret. simpl.
  destruct (result (Full.copy_construct v)); simpl; rewrite ?app_nil_r; split; reflexivity.
Qed.

Lemma Full_success_Exceptions (R E : Type) (m : Full.MoveConstructible R) (v : R) :
  events (Full.success R E Exceptions m (Full.prvalue v)) =
    events (Full.move_construct v) /\
  result (Full.success R E Exceptions m (Full.prvalue v)) =
    match result (Full.move_construct v) with
    | Returned returned => Returned returned
    | Thrown ex => Thrown ex
    end.
Proof.
  unfold Full.success, bind, ret. simpl.
  destruct (result (Full.move_construct v)); simpl; rewrite ?app_nil_r; split; reflexivity.
Qed.

Lemma Full_success_argument (R E : Type) (P : Policy)
    (constructor : Full.value_constructor P R) (argument : Full.Argument R) :
  Full.success R E P constructor argument =
  (val <- Full.parameter argument ;; Full.success R E P constructor (Full.prvalue val)).
Proof. reflexivity. Qed.

(** C4. Success fidelity, with the constructors of [R].  [success] runs the
    copy constructor of [R] under [Expected] and its move constructor under
    [Exceptions], and nothing else of its own: its events are those of that
    constructor; when the constructor completes, the result holds the value
    it made under [Expected], and is that value under [Exceptions]; when it
    throws, [success] leaves by its exception.  An argument that is not a
    prvalue is copied or moved into the parameter first, so that a copy
    constructor that writes a line has written it twice when [success] is
    given an lvalue under [Expected].  Under [Expected] the constructor that
    [success] needs is the copy constructor, under [Exceptions] the move
    constructor.  For a trivially copyable [R] the result holds [v], or is
    [v], and there is no event and no failure.  The overload without a value
    returns nothing under [Exceptions] and a result that holds a value under
    [Expected], always returns and causes no event. *)
Theorem success_fidelity_constructors :
  (forall (R E : Type) (c : Full.CopyConstructible R) (v : R),
      events (Full.success R E Expected c (Full.prvalue v)) =
        events (Full.copy_construct v) /\
      result (Full.success R E Expected c (Full.prvalue v)) =
        match result (Full.copy_construct v) with
        | Returned held => Returned (Expected_value held)
        | Thrown ex => Thrown ex
        end) /\
  (forall (R E : Type) (m : Full.MoveConstructible R) (v : R),
      events (Full.success R E Exceptions m (Full.prvalue v)) =
        events (Full.move_construct v) /\
      result (Full.success R E Exceptions m (Full.prvalue v)) =
        match result (Full.move_construct v) with
        | Returned returned => Returned returned
        | Thrown ex => Thrown ex
        end) /\
  (forall (R E : Type) (P : Policy) (constructor : Full.value_constructor P R)
          (argument : Full.Argument R),
      Full.success R E P constructor argument =
      (val <- Full.parameter argument ;;
       Full.success R E P constructor (Full.prvalue val))) /\
  (forall (R E : Type) (line : string) (v : R),
      Full.success R E Expected (logging_copy R line)
        (Full.lvalue (c := logging_copy R line) v) =
        Effect [line; line] (Returned (Expected_value v))) /\
  (forall R : Type,
      Full.value_constructor Expected R = Full.CopyConstructible R /\
      Full.value_constructor Exceptions R = Full.MoveConstructible R) /\
  (forall (R E : Type) (v : R),
      Full.success R E Expected (Full.trivial_copy R) (Full.prvalue v) =
        Effect [] (Returned (Expected_value v)) /\
      Full.success R E Exceptions (Full.trivial_move R) (Full.prvalue v) =
        Effect [] (Returned v) /\
      has_value (E := E) (Expected_value v) = true /\
      value (E := E) (Expected_value v) = Some v /\
      error (E := E) (Expected_value v) = None) /\
  (forall E : Type,
      success_void E Exceptions = Effect [] (Returned tt) /\
      success_void E Expected = Effect [] (Returned (Expected_value tt)) /\
      has_value (R := void) (E := E) (Expected_value tt) = true).
Proof.
  split; [exact Full_success_Expected |].
  split; [exact Full_success_Exceptions |].
  split; [exact Full_success_argument |].
  repeat split.
Qed.

(** With a copy constructor that throws, [success] under [Expected] leaves
    by that exception; with one that writes a line, [success] has written
    it: [success] can fail, and can have an effect. *)
Lemma success_fidelity_counterexample :
  result (Full.success string monostate Expected (throwing_copy string "std::bad_alloc")
            (Full.prvalue "value")) =
    Thrown (Exception_object {| what_arg := "std::bad_alloc" |}) /\
  events (Full.success string monostate Expected (logging_copy string "copied")
            (Full.prvalue "value")) = ["copied"] /\
  ~ (forall (R E : Type) (c : Full.CopyConstructible R) (v : R),
        channel (Full.success R E Expected c (Full.prvalue v)) = NormalReturn /\
        events (Full.success R E Expected c (Full.prvalue v)) = []).
Proof.
  split; [reflexivity |]. split; [reflexivity |].
  intros H.
  destruct (H string monostate (throwing_copy string "std::bad_alloc") "value")
    as [Hc _].
  discriminate Hc.
Qed.

(** ** The four failure constructors, one by one *)

Section FailureConstructors.

Context {Result Error Args : Type}.


Lemma make_failure_Expected
    `{ExceptionConstructable Error Args} `{ListInitializable Error Args} (args : Args) :
  make_failure Result Error Expected args =
  Effect (events (list_init Error args))
    (Returned (Expected_error (result (list_init Error args)))).
Proof.
  exact (bind_perform_ret _ _ (list_init Error args)
           (fun e => expected_of_unexpected (Unexpected e))).
Qed.

(** The functor overload. *)
Lemma make_failure_functor_Exceptions (Functor : Type)
    `{ErrorFunctor Functor Error Args} (args : Args) :
  make_failure_functor Result Error Functor Exceptions args =
  Effect (events (functor_exception Functor args))
    (Thrown (Exception_object (result (functor_exception Functor args)))).
Proof. apply bind_perform_throw. Qed.

Lemma make_failure_functor_Expected (Functor : Type)
    `{ErrorFunctor Functor Error Args} (args : Args) :
  make_failure_functor Result Error Functor Expected args =
  Effect (events (functor_unexpected Functor args))
    (Returned (Expected_error (unexpected_error (result (functor_unexpected Functor args))))).
Proof.
  exact (bind_perform_ret _ _ (functor_unexpected Functor args) expected_of_unexpected).
Qed.

(** The callable overload. *)
Lemma make_failure_callable_Exceptions {Unexpected Exception : Type}
    `{UnexpectedCallable Unexpected Error Args} `{ExceptionCallable Exception Args}
    (unexpected : Unexpected) (exception : Exception) (args : Args) :
  make_failure_callable Result Error Exceptions unexpected exception args =
  Effect (events (call_exception exception args))
    (Thrown (Exception_object (result (call_exception exception args)))).
Proof. apply bind_perform_throw. Qed.

Lemma make_failure_callable_Expected {Unexpected Exception : Type}
    `{UnexpectedCallable Unexpected Error Args} `{ExceptionCallable Exception Args}
    (unexpected : Unexpected) (exception : Exception) (args : Args) :
  make_failure_callable Result Error Expected unexpected exception args =
  Effect (events (call_unexpected unexpected args))
    (Returned
       (Expected_error (unexpected_error (result (call_unexpected unexpected args))))).
Proof.
  exact (bind_perform_ret _ _ (call_unexpected unexpected args) expected_of_unexpected).
Qed.



End FailureConstructors.



(** ** The operation under test *)

Import TestExpection.

Lemma divide_by_zero (F : FailureMethod) (n : int) :
  divide_by F Exceptions n 0%Z =
    Effect [] (Thrown (Exception_object {| what_arg := "Division by Zero" |})) /\
  divide_by F Expected n 0%Z =
    Effect []
      (Returned (Expected_error (DivideByError.Build DivideByError.DivideByZero))).
Proof. destruct F; split; reflexivity. Qed.

Lemma divide_by_nonzero (F : FailureMethod) (P : Policy) (n d : int) :
  d <> 0%Z ->
  divide_by F P n d =
  success double DivideByError P (double_div (double_of_int n) (double_of_int d)).
Proof.
  intros Hd. unfold divide_by.
  destruct (Z.eqb_spec d 0) as [H0 | _]; [contradiction | reflexivity].
Qed.

Lemma divide_by_channel (F : FailureMethod) (P : Policy) (n d : int) :
  channel (divide_by F P n d) =
  match P with
  | Exceptions => if (d =? 0)%Z then ControlTransfer else NormalReturn
  | Expected => NormalReturn
  end.
Proof.
  unfold divide_by. destruct (d =? 0)%Z.
  - destruct F, P; reflexivity.
  - rewrite (proj1 (success_returns _ _ _ _)). destruct P; reflexivity.
Qed.


Lemma divide_by_failure_content (F : FailureMethod) (P : Policy) (n : int) :
  failure_content P (divide_by F P n 0%Z) = Some "Division by Zero".
Proof. destruct F, P; reflexivity. Qed.

Lemma one_half_denotes : double_to_Q one_half = Some (1 # 2)%Q.
Proof. reflexivity. Qed.

(** ** Return or throw, never both

    [Module Full] at user types whose operations complete, and whose error
    is trivially copyable, is [Module Expection]. *)

Lemma Full_make_failure_functor_completing (R E Functor Args : Type)
    (c : ErrorFunctor Functor E Args) (P : Policy) (args : Args) :
  @Full.make_failure_functor R E Functor P Args (completing_ErrorFunctor c)
    (Full.trivial_move E) args =
  @make_failure_functor R E Functor P Args c args.
Proof.
  destruct P.
  - reflexivity.
  - rewrite make_failure_functor_Expected.
    unfold Full.make_failure_functor, Full.expected_of_unexpected, bind, perform, ret.
    simpl. rewrite app_nil_r. reflexivity.
Qed.

Lemma Full_make_failure_callable_completing
    (Result Error Unexpected Exception Args : Type)
    (cu : UnexpectedCallable Unexpected Error Args) (cx : ExceptionCallable Exception Args)
    (P : Policy) (unexpected : Unexpected) (exception : Exception) (args : Args) :
  @Full.make_failure_callable Result Error P Unexpected Exception Args
    (completing_UnexpectedCallable cu) (completing_ExceptionCallable cx)
    (Full.trivial_move Error) unexpected exception args =
  @make_failure_callable Result Error P Unexpected Exception Args cu cx
    unexpected exception args.
Proof.
  destruct P.
  - reflexivity.
  - rewrite make_failure_callable_Expected.
    unfold Full.make_failure_callable, Full.expected_of_unexpected, bind, perform, ret.
    simpl. rewrite app_nil_r. reflexivity.
Qed.

Lemma Full_make_failure_completing (Result Error Args : Type)
    (c : ExceptionConstructable Error Args) (l : ListInitializable Error Args)
    (P : Policy) (args : Args) :
  @Full.make_failure Result Error P Args (completing_ExceptionConstructable c)
    (completing_ListInitializable l) (Full.trivial_move Error) args =
  @make_failure Result Error P Args c l args.
Proof.
  destruct P.
  - reflexivity.
  - rewrite make_failure_Expected.
    unfold Full.make_failure, Full.expected_of_unexpected, bind, perform, ret.
    simpl. rewrite app_nil_r. reflexivity.
Qed.

Lemma Full_failure_completing (Result E : Type) (c : ExceptionConvertible E)
    (P : Policy) (error : E) :
  @Full.failure Result P E (completing_ExceptionConvertible c) (Full.trivial_move E)
    (Full.forwarded_rvalue error) =
  @failure Result P E c error.
Proof. destruct P; reflexivity. Qed.

(** *** With user code that throws *)

Lemma bind_result (X Y : Type) (c : Comp X) (k : X -> Comp Y) :
  result (x <- c ;; k x) =
  match result c with
  | Returned x => result (k x)
  | Thrown ex => Thrown ex
  end.
Proof. unfold bind. destruct (result c); reflexivity. Qed.

Lemma bind_throw_result (X Y : Type) (d : derived_from_exception X) (c : Comp X) :
  exists ex, result (x <- c ;; @throw Y X d x) = Thrown ex.
Proof.
  rewrite bind_result. destruct (result c) as [x | ex]; eexists; reflexivity.
Qed.

Lemma Full_expected_of_unexpected_result (R E : Type) (m : Full.MoveConstructible E)
    (u : unexpected E) :
  result (Full.expected_of_unexpected (R := R) u) =
  match result (Full.move_construct (unexpected_error u)) with
  | Returned e => Returned (Expected_error e)
  | Thrown ex => Thrown ex
  end.
Proof.
  unfold Full.expected_of_unexpected. rewrite bind_result.
  destruct (result (Full.move_construct (unexpected_error u))); reflexivity.
Qed.

(** C2. Policy duality, with user code that throws.  A computation returns
    normally or leaves by a thrown exception, never both and never neither.
    Under [Exceptions] every failure constructor throws, whatever the
    user's operations do.  Under [Expected] a failure constructor runs the
    user's operation that makes the error, and the moves (for [failure] the
    copy or move) of the error into the result: when they complete it
    returns the error case holding the error they made, and when one of
    them throws it leaves with that exception; it throws nothing of its
    own.  [divide_by] leaves by an exception exactly when the policy is
    [Exceptions] and the denominator is zero. *)
Theorem policy_duality_throwing :
  (forall (X : Type) (c : Comp X),
      (channel c = NormalReturn /\ (exists x, result c = Returned x) /\
       ~ (exists ex, result c = Thrown ex)) \/
      (channel c = ControlTransfer /\ (exists ex, result c = Thrown ex) /\
       ~ (exists x, result c = Returned x))) /\
  (forall (Result Error Fn Args : Type) (c : Full.ErrorFunctor Fn Error Args)
          (m : Full.MoveConstructible Error) (args : Args),
      (exists ex,
          result (Full.make_failure_functor Result Error Fn Exceptions args) =
          Thrown ex) /\
      result (Full.make_failure_functor Result Error Fn Expected args) =
        match result (Full.functor_unexpected Fn args) with
        | Thrown ex => Thrown ex
        | Returned u =>
            match result (Full.move_construct (unexpected_error u)) with
            | Thrown ex => Thrown ex
            | Returned e => Returned (Expected_error e)
            end
        end) /\
  (forall (Result Error UnexpectedFn ExceptionFn Args : Type)
          (cu : Full.UnexpectedCallable UnexpectedFn Error Args)
          (cx : Full.ExceptionCallable ExceptionFn Args)
          (m : Full.MoveConstructible Error)
          (on_unexpected : UnexpectedFn) (on_exception : ExceptionFn) (args : Args),
      (exists ex,
          result (Full.make_failure_callable Result Error Exceptions
                    on_unexpected on_exception args) = Thrown ex) /\
      result (Full.make_failure_callable Result Error Expected
                on_unexpected on_exception args) =
        match result (Full.call_unexpected on_unexpected args) with
        | Thrown ex => Thrown ex
        | Returned u =>
            match result (Full.move_construct (unexpected_error u)) with
            | Thrown ex => Thrown ex
            | Returned e => Returned (Expected_error e)
            end
        end) /\
  (forall (Result Error Args : Type) (c : Full.ExceptionConstructable Error Args)
          (l : Full.ListInitializable Error Args) (m : Full.MoveConstructible Error)
          (args : Args),
      (exists ex, result (Full.make_failure Result Error Exceptions args) = Thrown ex) /\
      result (Full.make_failure Result Error Expected args) =
        match result (Full.list_init Error args) with
        | Thrown ex => Thrown ex
        | Returned initialised =>
            match result (Full.move_construct initialised) with
            | Thrown ex => Thrown ex
            | Returned moved =>
                match result (Full.move_construct moved) with
                | Thrown ex => Thrown ex
                | Returned e => Returned (Expected_error e)
                end
            end
        end) /\
  (forall (Result E : Type) (c : Full.ExceptionConvertible E)
          (m : Full.MoveConstructible E) (err : Full.Forwarded E),
      (exists ex, result (Full.failure Result Exceptions err) = Thrown ex) /\
      result (Full.failure Result Expected err) =
        match result (Full.construct_from err) with
        | Thrown ex => Thrown ex
        | Returned constructed =>
            match result (Full.move_construct constructed) with
            | Thrown ex => Thrown ex
            | Returned e => Returned (Expected_error e)
            end
        end) /\
  (forall (F : FailureMethod) (P : Policy) (n d : int),
      channel (divide_by F P n d) =
      match P with
      | Exceptions => if (d =? 0)%Z then ControlTransfer else NormalReturn
      | Expected => NormalReturn
      end).
Proof.
  split; [exact Outcome_cases |].
  split.
  { intros. split; [apply bind_throw_result |].
    unfold Full.make_failure_functor. rewrite bind_result.
    destruct (result (Full.functor_unexpected Fn args)) as [u | ex];
      [apply Full_expected_of_unexpected_result | reflexivity]. }
  split.
  { intros. split; [apply bind_throw_result |].
    unfold Full.make_failure_callable. rewrite bind_result.
    destruct (result (Full.call_unexpected on_unexpected args)) as [u | ex];
      [apply Full_expected_of_unexpected_result | reflexivity]. }
  split.
  { intros. split; [apply bind_throw_result |].
    unfold Full.make_failure. rewrite bind_result.
    destruct (result (Full.list_init Error args)) as [i | ex]; [| reflexivity].
    rewrite bind_result.
    destruct (result (Full.move_construct i)) as [moved | ex]; [| reflexivity].
    apply (Full_expected_of_unexpected_result Result Error m (Unexpected moved)). }
  split.
  { intros. split; [apply bind_throw_result |].
    unfold Full.failure. rewrite bind_result.
    destruct (result (Full.construct_from err)) as [constructed | ex]; [| reflexivity].
    apply (Full_expected_of_unexpected_result Result E m (Unexpected constructed)). }
  exact divide_by_channel.
Qed.

(** Under [Expected], a callable pair whose unexpected-callable throws makes
    [make_failure] throw: the error case is not returned. *)
Lemma policy_duality_counterexample :
  result
    (@Full.make_failure_callable double string Expected _ _ unit
       (Full.function_UnexpectedCallable unit string)
       (Full.function_ExceptionCallable unit runtime_error _)
       (Full.trivial_move string)
       throwing_unexpected plain_exception tt) =
    Thrown (Exception_object {| what_arg := "std::bad_alloc" |}) /\
  ~ (forall (Result Error UnexpectedFn ExceptionFn Args : Type)
            (cu : Full.UnexpectedCallable UnexpectedFn Error Args)
            (cx : Full.ExceptionCallable ExceptionFn Args)
            (m : Full.MoveConstructible Error)
            (on_unexpected : UnexpectedFn) (on_exception : ExceptionFn) (args : Args),
        exists e,
          result (Full.make_failure_callable Result Error Expected
                    on_unexpected on_exception args) = Returned (Expected_error e)).
Proof.
  split; [reflexivity |].
  intros H.
  destruct (H double string _ _ unit
              (Full.function_UnexpectedCallable unit string)
              (Full.function_ExceptionCallable unit runtime_error _)
              (Full.trivial_move string)
              throwing_unexpected plain_exception tt) as [e He].
  discriminate He.
Qed.


(** ** The division scenarios *)

(** C7. For each of the four ways of building the failure: 1/2 under
    [Expected] is a result holding the value 0.5, and under [Exceptions] the
    returned 0.5; 1/0 under [Expected] is a result holding an error whose
    [str()] is "Division by Zero", and under [Exceptions] a thrown exception
    whose [what()] is "Division by Zero". *)
Theorem divide_by_scenarios (F : FailureMethod) :
  (exists x,
      result (divide_by F Expected 1%Z 2%Z) = Returned x /\
      has_value x = true /\ value x = Some one_half) /\
  result (divide_by F Exceptions 1%Z 2%Z) = Returned one_half /\
  double_to_Q one_half = Some (1 # 2)%Q /\
  (exists x e,
      result (divide_by F Expected 1%Z 0%Z) = Returned x /\
      has_value x = false /\ error x = Some e /\
      DivideByError.str e = "Division by Zero") /\
  (exists ex,
      result (divide_by F Exceptions 1%Z 0%Z) = Thrown ex /\
      description ex = "Division by Zero").
Proof.
  split; [| split; [| split; [| split]]].
  - exists (Expected_value one_half). destruct F; repeat split.
  - destruct F; reflexivity.
  - exact one_half_denotes.
  - exists (Expected_error (DivideByError.Build DivideByError.DivideByZero)),
      (DivideByError.Build DivideByError.DivideByZero).
    destruct F; repeat split.
  - exists (Exception_object {| what_arg := "Division by Zero" |}).
    destruct F; repeat split.
Qed.

(** The same scenarios for the operation of the demonstration program, in
    the default build. *)
Lemma example_divide_by_scenarios :
  ExampleCpp.divide_by None Exceptions 1%Z 2%Z = Some (Effect [] (Returned one_half)) /\
  ExampleCpp.divide_by None Expected 1%Z 2%Z =
    Some (Effect [] (Returned (Expected_value one_half))) /\
  ExampleCpp.divide_by None Exceptions 1%Z 0%Z =
    Some (Effect [] (Thrown (Exception_object {| what_arg := "Division by Zero" |}))) /\
  ExampleCpp.divide_by None Expected 1%Z 0%Z =
    Some (Effect []
            (Returned
               (Expected_error
                  (ExampleCpp.DivideByError.Build
                     ExampleCpp.DivideByError.DivideByZero)))).
Proof. repeat split. Qed.

(** The third test case leaves the policy out; in the default build the
    operation then returns the quotient and throws on a zero denominator. *)
Lemma divide_by_default_policy (F : FailureMethod) :
  divide_by_call None F None 1%Z 2%Z = Effect [] (Returned one_half) /\
  caught_what (divide_by_call None F None 1%Z 0%Z) = Some "Division by Zero".
Proof. destruct F; split; reflexivity. Qed.

(** ** The four strategies agree *)



(** ** The unused channel *)

(** C10. Only the constructor of the active channel is run.  Callable pair:
    under [Expected] the call causes the events of the unexpected-callable
    and returns the error it makes of the arguments, and it is the same
    computation for every exception callable, of any type and with any
    events of its own; under [Exceptions] it causes the events of the
    exception callable and throws what it makes, the same for every
    unexpected-callable.  Functor: the same for the two static members of
    the helper type. *)
Theorem unused_channel_not_invoked :
  (forall (Result Error Args Unexpected Exception Exception' : Type)
          (cu : UnexpectedCallable Unexpected Error Args)
          (cx : ExceptionCallable Exception Args)
          (cx' : ExceptionCallable Exception' Args)
          (unexpected : Unexpected) (exception : Exception) (exception' : Exception')
          (args : Args),
      make_failure_callable Result Error Expected unexpected exception args =
        Effect (events (call_unexpected unexpected args))
          (Returned
             (Expected_error
                (unexpected_error (result (call_unexpected unexpected args))))) /\
      make_failure_callable Result Error Expected unexpected exception args =
        make_failure_callable Result Error Expected unexpected exception' args) /\
  (forall (Result Error Args Unexpected Unexpected' Exception : Type)
          (cu : UnexpectedCallable Unexpected Error Args)
          (cu' : UnexpectedCallable Unexpected' Error Args)
          (cx : ExceptionCallable Exception Args)
          (unexpected : Unexpected) (unexpected' : Unexpected') (exception : Exception)
          (args : Args),
      make_failure_callable Result Error Exceptions unexpected exception args =
        Effect (events (call_exception exception args))
          (Thrown (Exception_object (result (call_exception exception args)))) /\
      make_failure_callable Result Error Exceptions unexpected exception args =
        make_failure_callable Result Error Exceptions unexpected' exception args) /\
  (forall (Result Error Functor Args X X' : Type)
          (dx : derived_from_exception X) (dx' : derived_from_exception X')
          (exception : Args -> Effectful X) (exception' : Args -> Effectful X')
          (unexpected : Args -> Effectful (std.unexpected Error)) (args : Args),
      @make_failure_functor Result Error Functor Expected Args
        (Build_ErrorFunctor Functor Error Args X dx exception unexpected) args =
        Effect (events (unexpected args))
          (Returned (Expected_error (unexpected_error (result (unexpected args))))) /\
      @make_failure_functor Result Error Functor Expected Args
        (Build_ErrorFunctor Functor Error Args X dx exception unexpected) args =
      @make_failure_functor Result Error Functor Expected Args
        (Build_ErrorFunctor Functor Error Args X' dx' exception' unexpected) args) /\
  (forall (Result Error Functor Args X : Type) (dx : derived_from_exception X)
          (exception : Args -> Effectful X)
          (unexpected unexpected' : Args -> Effectful (std.unexpected Error))
          (args : Args),
      @make_failure_functor Result Error Functor Exceptions Args
        (Build_ErrorFunctor Functor Error Args X dx exception unexpected) args =
        Effect (events (exception args))
          (Thrown (Exception_object (result (exception args)))) /\
      @make_failure_functor Result Error Functor Exceptions Args
        (Build_ErrorFunctor Functor Error Args X dx exception unexpected) args =
      @make_failure_functor Result Error Functor Exceptions Args
        (Build_ErrorFunctor Functor Error Args X dx exception unexpected') args).
Proof.
  split; [| split; [| split]]; intros.
  - rewrite !make_failure_callable_Expected. split; reflexivity.
  - rewrite !make_failure_callable_Exceptions. split; reflexivity.
  - rewrite !make_failure_functor_Expected. split; reflexivity.
  - rewrite !make_failure_functor_Exceptions. split; reflexivity.
Qed.

(** The events of an operation that is run do show: a callable pair whose
    two members each leave their mark. *)
Lemma active_channel_is_invoked :
  let unexpected := fun _ : unit => Effect ["unexpected called"] (Unexpected Monostate) in
  let exception := fun _ : unit =>
    Effect ["exception called"] {| what_arg := "failed" |} in
  events (make_failure_callable double monostate Expected unexpected exception tt) =
    ["unexpected called"] /\
  events (make_failure_callable double monostate Exceptions unexpected exception tt) =
    ["exception called"].
Proof. split; reflexivity. Qed.

(** ** Capability gating *)

Lemma candidate_viable (constraint : bool) (o o' : Overload) :
  In o' (candidate constraint o) -> constraint = true /\ o' = o.
Proof.
  destruct constraint; simpl; [| intros []].
  intros [H | []]. split; [reflexivity | symmetry; exact H].
Qed.

(** A viable overload is one whose constraint the types of the call
    satisfy. *)
Lemma viable_overloads_capable
    (Error Functor Unexpected Exception Args : Type)
    (caps : Capabilities Error Functor Unexpected Exception Args)
    (call : CallShape) (o : Overload) :
  In o (viable_overloads Error Functor Unexpected Exception Args caps call) ->
  match o with
  | functor_overload => satisfies_ErrorFunctor _ _ _ _ _ caps <> None
  | callable_overload =>
      satisfies_UnexpectedCallable _ _ _ _ _ caps <> None /\
      satisfies_ExceptionCallable _ _ _ _ _ caps <> None
  | in_place_overload =>
      satisfies_ExceptionConstructable _ _ _ _ _ caps <> None \/
      satisfies_ExceptionConstructable_leading _ _ _ _ _ caps <> None
  | conversion_overload => satisfies_ExceptionConvertible _ _ _ _ _ caps <> None
  end.
Proof.
  destruct call; simpl; intros Hin.
  - apply candidate_viable in Hin. destruct Hin as [Hs ->].
    destruct (satisfies_ErrorFunctor _ _ _ _ _ caps); discriminate.
  - apply candidate_viable in Hin. destruct Hin as [Hs ->]. left.
    destruct (satisfies_ExceptionConstructable _ _ _ _ _ caps); discriminate.
  - apply in_app_or in Hin. destruct Hin as [Hin | Hin];
      apply candidate_viable in Hin; destruct Hin as [Hs ->].
    + destruct (satisfies_UnexpectedCallable _ _ _ _ _ caps);
        destruct (satisfies_ExceptionCallable _ _ _ _ _ caps);
        try discriminate; split; discriminate.
    + right.
      destruct (satisfies_ExceptionConstructable_leading _ _ _ _ _ caps); discriminate.
  - apply candidate_viable in Hin. destruct Hin as [Hs ->].
    destruct (satisfies_ExceptionConvertible _ _ _ _ _ caps); discriminate.
Qed.

(** C9. Capability gating: when the error type has none of the four
    capability shapes, a call of [make_failure] or of [failure] with it has
    no viable overload, whatever its shape: the compiler rejects the call,
    and nothing is left to run and to throw. *)
Theorem capability_gating
    (Error Functor Unexpected Exception Args : Type)
    (caps : Capabilities Error Functor Unexpected Exception Args)
    (call : CallShape) :
  no_capability Error Functor Unexpected Exception Args caps ->
  viable_overloads Error Functor Unexpected Exception Args caps call = [].
Proof.
  intros (Hc & Hcl & Hf & Hux & Hv).
  destruct call; simpl.
  - rewrite Hf. reflexivity.
  - rewrite Hc. reflexivity.
  - rewrite Hcl. destruct Hux as [Hu | Hx].
    + rewrite Hu. reflexivity.
    + rewrite Hx. rewrite andb_false_r. reflexivity.
  - rewrite Hv. reflexivity.
Qed.

Lemma capability_gating_witness :
  no_capability monostate monostate monostate monostate unit no_capabilities /\
  viable_overloads monostate monostate monostate monostate unit no_capabilities
    call_failure = [].
Proof.
  assert (H : no_capability monostate monostate monostate monostate unit
                no_capabilities).
  { unfold no_capability. simpl. repeat split. left. reflexivity. }
  split; [exact H |].
  exact (capability_gating monostate monostate monostate monostate unit
           no_capabilities call_failure H).
Defined.

(** Each call of [divide_by] has exactly one viable overload, the one that
    its [FailureMethod] names. *)
Lemma divide_by_calls_viable :
  viable_overloads _ _ _ _ _ DivideByError_capabilities call_with_pack =
    [in_place_overload] /\
  viable_overloads _ _ _ _ _ DivideByError_capabilities call_with_functor =
    [functor_overload] /\
  viable_overloads _ _ _ _ _ DivideByError_capabilities call_with_leading =
    [callable_overload] /\
  viable_overloads _ _ _ _ _ DivideByError_capabilities call_failure =
    [conversion_overload].
Proof. repeat split. Qed.

(** ** Overriding the default policy *)

Lemma divide_by_call_written (cfg : BuildConfig) (F : FailureMethod) (P : Policy)
    (n d : int) :
  divide_by_call cfg F (Some P) n d = divide_by F P n d.
Proof. reflexivity. Qed.

Lemma divide_by_call_defaulted (cfg : BuildConfig) (F : FailureMethod) (n d : int) :
  divide_by_call cfg F None n d = divide_by F (DefaultPolicy cfg) n d.
Proof. reflexivity. Qed.

(** The operation of the demonstration program builds its success with the
    default policy of the build.  Wherever its instantiation compiles, what
    it computes does not depend on the build configuration. *)
Lemma example_divide_by_any_default (cfg cfg' : BuildConfig) (P : Policy) (n d : int)
    (c c' : Comp (ResultType double ExampleCpp.DivideByError P)) :
  ExampleCpp.divide_by cfg P n d = Some c ->
  ExampleCpp.divide_by cfg' P n d = Some c' ->
  c = c'.
Proof.
  unfold ExampleCpp.divide_by.
  destruct cfg as [[|] |], cfg' as [[|] |], P; simpl;
    try discriminate; intros [= <-] [= <-]; destruct (d =? 0)%Z; reflexivity.
Qed.

(** That instantiation compiles in the default build, for either policy. *)
Lemma example_divide_by_default_build (P : Policy) (n d : int) :
  exists c, ExampleCpp.divide_by None P n d = Some c.
Proof. destruct P; eexists; reflexivity. Qed.

(** In a build with [EXPECTION_DEFAULTPOLICY] defined to [Expected] its
    instantiation at [Policy::Exceptions] does not compile. *)
Lemma example_divide_by_Expected_build (n d : int) :
  ExampleCpp.divide_by (Some Expected) Exceptions n d = None.
Proof. reflexivity. Qed.

(** C8. In [example.cpp] a policy written at the call of [divide_by] does
    not override the default of the build: the body builds its success by
    [success<Result, Error>(val)], whose policy is the default.  The call
    [divide_by<Policy::Exceptions>(n, d)], the fourth of [main], compiles in
    the default build, where for 1 and 0 it throws "Division by Zero"; in a
    build whose default is [Expected] the same call does not compile.  The
    second call of [main], [divide_by<Policy::Expected>(1, 0)], returns the
    same error in both builds.  [divide_by] of [testexpection.cpp], which
    hands [P] on to [success], is the same in every build. *)
Theorem policy_override_example_slip :
  (forall n d : int, ExampleCpp.divide_by (Some Expected) Exceptions n d = None) /\
  (forall n d : int, exists c, ExampleCpp.divide_by None Exceptions n d = Some c) /\
  ExampleCpp.divide_by None Exceptions 1%Z 0%Z =
    Some (Effect [] (Thrown (Exception_object {| what_arg := "Division by Zero" |}))) /\
  ExampleCpp.divide_by None Expected 1%Z 0%Z =
    Some (Effect [] (Returned (Expected_error
      (ExampleCpp.DivideByError.Build ExampleCpp.DivideByError.DivideByZero)))) /\
  ExampleCpp.divide_by (Some Expected) Expected 1%Z 0%Z =
    Some (Effect [] (Returned (Expected_error
      (ExampleCpp.DivideByError.Build ExampleCpp.DivideByError.DivideByZero)))) /\
  ExampleCpp.DivideByError.str
    (ExampleCpp.DivideByError.Build ExampleCpp.DivideByError.DivideByZero) =
    "Division by Zero" /\
  (forall (cfg cfg' : BuildConfig) (F : FailureMethod) (P : Policy) (n d : int),
      divide_by_call cfg F (Some P) n d = divide_by_call cfg' F (Some P) n d).
Proof.
  split; [reflexivity |].
  split; [intros n d; eexists; reflexivity |].
  repeat split.
Qed.

(** ** The arithmetic of [divide_by] *)

Lemma digits2_pos_iter_xO (p d : positive) :
  digits2_pos (Pos.iter xO p d) = (digits2_pos p + d)%positive.
Proof.
  induction d as [| d IH] using Pos.peano_ind.
  - simpl. rewrite Pos.add_1_r. reflexivity.
  - rewrite Pos.iter_succ. simpl. rewrite IH, Pos.add_succ_r. reflexivity.
Qed.

Lemma Zpos_iter_xO (p d : positive) :
  Zpos (Pos.iter xO p d) = (Zpos p * 2 ^ Zpos d)%Z.
Proof.
  induction d as [| d IH] using Pos.peano_ind.
  - simpl. lia.
  - rewrite Pos.iter_succ, Pos2Z.inj_xO, IH, Pos2Z.inj_succ, Z.pow_succ_r by lia. lia.
Qed.

Lemma binary_round_aux_exact (s : bool) (m : positive) (e : Z) :
  Zpos (digits2_pos m) = 53%Z -> (-1074 <= e <= 971)%Z ->
  binary_round_aux double_prec double_emax s (Zpos m) e loc_Exact = S754_finite s m e.
Proof.
  intros Hd He.
  unfold binary_round_aux, shr_fexp, fexp, emin, double_prec, double_emax.
  cbn [Zdigits2 shr_record_of_loc]. rewrite Hd.
  replace (Z.max (53 + e - 53) (3 - 1024 - 53))%Z with e by lia.
  rewrite Z.sub_diag. cbn [shr shr_m loc_of_shr_record round_nearest_even Zdigits2].
  rewrite Hd.
  replace (Z.max (53 + e - 53) (3 - 1024 - 53))%Z with e by lia.
  rewrite Z.sub_diag. cbn [shr shr_m shr_record_of_loc].
  replace (e <=? 1024 - 53)%Z with true by (symmetry; apply Z.leb_le; lia).
  reflexivity.
Qed.

Lemma digits2_pos_le (p : positive) :
  forall n : Z, (0 <= n)%Z -> (Zpos p < 2 ^ n)%Z -> (Zpos (digits2_pos p) <= n)%Z.
Proof.
  induction p as [p IH | p IH |]; intros n Hn Hp.
  - assert (n <> 0)%Z by (intros ->; simpl in Hp; lia).
    replace n with (Z.succ (n - 1)) in Hp by lia.
    rewrite Z.pow_succ_r in Hp by lia.
    specialize (IH (n - 1)%Z). simpl. rewrite Pos2Z.inj_succ. lia.
  - assert (n <> 0)%Z by (intros ->; simpl in Hp; lia).
    replace n with (Z.succ (n - 1)) in Hp by lia.
    rewrite Z.pow_succ_r in Hp by lia.
    specialize (IH (n - 1)%Z). simpl. rewrite Pos2Z.inj_succ. lia.
  - assert (n <> 0)%Z by (intros ->; simpl in Hp; lia). simpl. lia.
Qed.

Lemma double_mantissa_digits (p : positive) :
  (Zpos (digits2_pos p) <= 53)%Z -> Zpos (digits2_pos (double_mantissa p)) = 53%Z.
Proof.
  intros Hk. unfold double_mantissa.
  destruct (53 - Zpos (digits2_pos p))%Z as [| d | d] eqn:Hd; try lia.
  rewrite digits2_pos_iter_xO, Pos2Z.inj_add. lia.
Qed.

(** The [double] of a positive integer below 2^53. *)
Lemma binary_round_small (s : bool) (p : positive) :
  (Zpos (digits2_pos p) <= 53)%Z ->
  binary_round double_prec double_emax s p 0 =
  S754_finite s (double_mantissa p) (double_exponent p).
Proof.
  intros Hk.
  assert (Hpos : (0 < Zpos (digits2_pos p))%Z) by lia.
  unfold binary_round, shl_align, fexp, emin, double_prec, double_emax.
  replace (Z.max (Zpos (digits2_pos p) + 0 - 53) (3 - 1024 - 53))%Z
    with (Zpos (digits2_pos p) - 53)%Z by lia.
  rewrite Z.sub_0_r.
  pose proof (double_mantissa_digits p Hk) as Hm.
  unfold double_mantissa in *. unfold double_exponent.
  destruct (53 - Zpos (digits2_pos p))%Z as [| d | d] eqn:Hd; try lia.
  - replace (Zpos (digits2_pos p) - 53)%Z with 0%Z by lia.
    apply binary_round_aux_exact; [exact Hm | lia].
  - replace (Zpos (digits2_pos p) - 53)%Z with (Zneg d) by lia.
    apply (binary_round_aux_exact s (Pos.iter xO p d) (Zneg d)); [exact Hm | lia].
Qed.

Lemma double_to_Q_small (s : bool) (p : positive) :
  (Zpos (digits2_pos p) <= 53)%Z ->
  double_to_Q (S754_finite s (double_mantissa p) (double_exponent p)) =
  Some (Qred (inject_Z (if s then Zneg p else Zpos p))).
Proof.
  intros Hk. unfold double_to_Q. f_equal. apply Qred_complete.
  unfold double_mantissa, double_exponent.
  destruct (53 - Zpos (digits2_pos p))%Z as [| d | d] eqn:Hd; try lia.
  - replace (Zpos (digits2_pos p) - 53)%Z with 0%Z by lia.
    destruct s; simpl; unfold Qeq; simpl; lia.
  - replace (Zpos (digits2_pos p) - 53)%Z with (- Zpos d)%Z by lia.
    rewrite Zpos_iter_xO, inject_Z_mult, Qpower_opp.
    rewrite (Zpower_Qpower 2 (Zpos d)) by lia.
    change (inject_Z 2) with 2%Q.
    assert (Hnz : ~ 2 ^ Zpos d == 0).
    { apply Qpower_not_0. discriminate. }
    generalize dependent (2 ^ Zpos d). intros y Hnz.
    destruct s.
    + change (inject_Z (Zneg p)) with (- inject_Z (Zpos p)). field. exact Hnz.
    + field. exact Hnz.
Qed.

(** The [double] of an [int]: zero, or a finite value with the sign of the
    integer and a mantissa of 53 bits. *)
Lemma double_of_int_small (n : Z) :
  (Z.abs n < 2 ^ 53)%Z ->
  double_of_int n =
  match n with
  | Z0 => S754_zero false
  | Zpos p => S754_finite false (double_mantissa p) (double_exponent p)
  | Zneg p => S754_finite true (double_mantissa p) (double_exponent p)
  end.
Proof.
  intros Hn. unfold double_of_int, binary_normalize.
  destruct n as [| p | p]; [reflexivity | |];
    apply binary_round_small; apply digits2_pos_le; simpl in Hn; lia.
Qed.

Lemma representable_small (n : Z) : representable n -> (Z.abs n < 2 ^ 53)%Z.
Proof. unfold representable, INT_MIN, INT_MAX. lia. Qed.

(** *** Signs *)

Lemma binary_round_aux_negb (s : bool) (m e : Z) (l : location) :
  binary_round_aux double_prec double_emax (negb s) m e l =
  SFopp (binary_round_aux double_prec double_emax s m e l).
Proof.
  unfold binary_round_aux.
  destruct (shr_fexp double_prec double_emax m e l) as [mrs' e'].
  destruct (shr_fexp double_prec double_emax _ e' loc_Exact) as [mrs'' e''].
  destruct (shr_m mrs''); [reflexivity | | reflexivity].
  destruct (e'' <=? double_emax - double_prec)%Z; reflexivity.
Qed.

Lemma binary_round_negb (s : bool) (m : positive) (e : Z) :
  binary_round double_prec double_emax (negb s) m e =
  SFopp (binary_round double_prec double_emax s m e).
Proof.
  unfold binary_round.
  destruct (shl_align m e _) as [mz ez].
  apply binary_round_aux_negb.
Qed.

Lemma double_opp_involutive (x : double) : double_opp (double_opp x) = x.
Proof. destruct x; simpl; rewrite ?negb_involutive; reflexivity. Qed.

Lemma double_of_int_opp (n : Z) :
  (n <> 0)%Z -> double_of_int (- n)%Z = double_opp (double_of_int n).
Proof.
  intros Hn. unfold double_of_int, binary_normalize, double_opp.
  destruct n as [| p | p]; [contradiction | |]; simpl Z.opp.
  - exact (binary_round_negb false p 0).
  - exact (binary_round_negb true p 0).
Qed.

Lemma double_div_opp_l (x y : double) :
  double_div (double_opp x) y = double_opp (double_div x y).
Proof.
  unfold double_div, double_opp.
  destruct x as [sx | sx | | sx mx ex], y as [sy | sy | | sy my ey]; simpl;
    try reflexivity; try (destruct sx, sy; reflexivity).
  destruct (SFdiv_core_binary _ _ _ _ _ _) as [[mz ez] lz].
  replace (xorb (negb sx) sy) with (negb (xorb sx sy)) by (destruct sx, sy; reflexivity).
  apply binary_round_aux_negb.
Qed.

Lemma double_div_opp_r (x y : double) :
  double_div x (double_opp y) = double_opp (double_div x y).
Proof.
  unfold double_div, double_opp.
  destruct x as [sx | sx | | sx mx ex], y as [sy | sy | | sy my ey]; simpl;
    try reflexivity; try (destruct sx, sy; reflexivity).
  destruct (SFdiv_core_binary _ _ _ _ _ _) as [[mz ez] lz].
  replace (xorb sx (negb sy)) with (negb (xorb sx sy)) by (destruct sx, sy; reflexivity).
  apply binary_round_aux_negb.
Qed.


(** *** The quotient is a number *)

Lemma digits2_pos_lt (p : positive) : (Zpos p < 2 ^ Zpos (digits2_pos p))%Z.
Proof.
  induction p as [p IH | p IH |]; simpl digits2_pos.
  - rewrite Pos2Z.inj_succ, Z.pow_succ_r, Pos2Z.inj_xI by lia. lia.
  - rewrite Pos2Z.inj_succ, Z.pow_succ_r, Pos2Z.inj_xO by lia. lia.
  - reflexivity.
Qed.

Lemma Zdigits2_bound (m B : Z) :
  (0 <= B)%Z -> (0 <= m < 2 ^ B)%Z -> (0 <= Zdigits2 m <= B)%Z.
Proof.
  intros HB Hm. destruct m as [| p | p]; simpl; try lia.
  pose proof (digits2_pos_le p B HB). lia.
Qed.

Lemma shr_1_bounds (r : shr_record) :
  (0 <= shr_m r)%Z -> (0 <= shr_m (shr_1 r) <= shr_m r)%Z.
Proof.
  destruct r as [m r s]. destruct m as [| [p | p |] | p]; simpl; lia.
Qed.

Lemma iter_pos_shr_1_bounds (p : positive) :
  forall (r : shr_record) (M : Z),
    (0 <= shr_m r <= M)%Z -> (0 <= shr_m (SpecFloat.iter_pos shr_1 p r) <= M)%Z.
Proof.
  induction p as [p IH | p IH |]; intros r M Hr; simpl.
  - apply IH, IH. pose proof (shr_1_bounds r). lia.
  - apply IH, IH. exact Hr.
  - pose proof (shr_1_bounds r). lia.
Qed.

Lemma shr_m_of_loc (m : Z) (l : location) : shr_m (shr_record_of_loc m l) = m.
Proof. destruct l as [| []]; reflexivity. Qed.

Lemma shr_fexp_bounds (m e : Z) (l : location) (B : Z) :
  (0 <= B)%Z -> (0 <= m < 2 ^ B)%Z ->
  (0 <= shr_m (fst (shr_fexp double_prec double_emax m e l)) <= m)%Z /\
  (snd (shr_fexp double_prec double_emax m e l) <=
   Z.max e (Z.max (B + e - 53) (-1074)))%Z.
Proof.
  intros HB Hm. pose proof (Zdigits2_bound m B HB Hm) as Hd.
  unfold shr_fexp, shr, fexp, emin, double_prec, double_emax.
  destruct (Z.max (Zdigits2 m + e - 53) (3 - 1024 - 53) - e)%Z as [| p | p] eqn:Hs;
    simpl fst; simpl snd.
  - rewrite shr_m_of_loc. lia.
  - split; [| lia].
    apply iter_pos_shr_1_bounds. rewrite shr_m_of_loc. lia.
  - rewrite shr_m_of_loc. lia.
Qed.

Lemma round_nearest_even_bounds (m : Z) (l : location) :
  (m <= round_nearest_even m l <= m + 1)%Z.
Proof.
  destruct l as [| []]; simpl; try lia. destruct (Z.even m); lia.
Qed.

(** Rounding a non-negative mantissa, not too long and with an exponent that
    is not positive, gives a zero or a finite value, of the sign asked for. *)
Lemma binary_round_aux_is_number (s : bool) (m e : Z) (l : location) (B : Z) :
  (0 <= B <= 110)%Z -> (0 <= m < 2 ^ B)%Z -> (e <= 0)%Z ->
  is_number (binary_round_aux double_prec double_emax s m e l) = true /\
  signbit (binary_round_aux double_prec double_emax s m e l) = s.
Proof.
  intros HB Hm He. unfold binary_round_aux.
  pose proof (shr_fexp_bounds m e l B (proj1 HB) Hm) as [Hm1 He1].
  destruct (shr_fexp double_prec double_emax m e l) as [mrs' e'].
  simpl fst in Hm1. simpl snd in He1.
  pose proof (round_nearest_even_bounds (shr_m mrs') (loc_of_shr_record mrs')) as Hr.
  set (m1 := round_nearest_even (shr_m mrs') (loc_of_shr_record mrs')) in *.
  assert (Hm1' : (0 <= m1 < 2 ^ (B + 1))%Z).
  { rewrite Z.pow_add_r by lia. simpl (2 ^ 1)%Z. lia. }
  pose proof (shr_fexp_bounds m1 e' loc_Exact (B + 1) ltac:(lia) Hm1') as [Hm2 He2].
  destruct (shr_fexp double_prec double_emax m1 e' loc_Exact) as [mrs'' e''].
  simpl fst in Hm2. simpl snd in He2.
  destruct (shr_m mrs'') as [| q | q]; [split; reflexivity | | lia].
  unfold double_emax, double_prec.
  replace (e'' <=? 1024 - 53)%Z with true by (symmetry; apply Z.leb_le; lia).
  split; reflexivity.
Qed.

Lemma double_div_finite_is_number (sx sy : bool) (mx my : positive) (ex ey : Z) :
  Zpos (digits2_pos mx) = 53%Z -> Zpos (digits2_pos my) = 53%Z ->
  (-52 <= ex <= 0)%Z -> (-52 <= ey <= 0)%Z ->
  is_number (double_div (S754_finite sx mx ex) (S754_finite sy my ey)) = true /\
  signbit (double_div (S754_finite sx mx ex) (S754_finite sy my ey)) = xorb sx sy.
Proof.
  intros Hdx Hdy Hex Hey.
  unfold double_div, SFdiv, SFdiv_core_binary, fexp, emin, double_prec, double_emax.
  cbn [Zdigits2]. rewrite Hdx, Hdy.
  replace (Z.min (Z.max (53 + ex - (53 + ey) - 53) (3 - 1024 - 53)) (ex - ey))%Z
    with (ex - ey - 53)%Z by lia.
  replace (ex - ey - (ex - ey - 53))%Z with 53%Z by lia.
  cbv iota.
  pose proof (Z_div_mod (Z.shiftl (Zpos mx) 53) (Zpos my) ltac:(lia)) as Hdiv.
  destruct (Z.div_eucl (Z.shiftl (Zpos mx) 53) (Zpos my)) as [q r].
  rewrite Z.shiftl_mul_pow2 in Hdiv by lia.
  pose proof (digits2_pos_lt mx) as Hmx. rewrite Hdx in Hmx.
  apply (binary_round_aux_is_number _ q _ _ 106); [lia | | lia].
  assert (H106 : (2 ^ 106 = 2 ^ 53 * 2 ^ 53)%Z) by reflexivity.
  destruct Hdiv as [Heq Hr]. nia.
Qed.

(** *** Exact quotients *)

Lemma Z_div_eucl_exact (a b q : Z) :
  (0 < b)%Z -> (a = b * q)%Z -> Z.div_eucl a b = (q, 0%Z).
Proof.
  intros Hb Ha.
  pose proof (Z_div_mod a b ltac:(lia)) as Hdiv.
  destruct (Z.div_eucl a b) as [q' r']. destruct Hdiv as [Heq Hr].
  assert (q' = q) by nia. assert (r' = 0%Z) by nia. subst. reflexivity.
Qed.

Lemma new_location_exact (nb_steps : Z) : new_location nb_steps 0 = loc_Exact.
Proof.
  unfold new_location, new_location_even, new_location_odd.
  destruct (Z.even nb_steps); reflexivity.
Qed.

(** A finite [double] divided by itself is 1.0. *)
Lemma double_div_self (s : bool) (m : positive) (e : Z) :
  Zpos (digits2_pos m) = 53%Z -> (-52 <= e <= 0)%Z ->
  double_div (S754_finite s m e) (S754_finite s m e) = one.
Proof.
  intros Hd He.
  unfold double_div, SFdiv, SFdiv_core_binary, fexp, emin, double_prec, double_emax.
  cbn [Zdigits2]. rewrite Hd.
  replace (Z.min (Z.max (53 + e - (53 + e) - 53) (3 - 1024 - 53)) (e - e))%Z
    with (-53)%Z by lia.
  replace (e - e - -53)%Z with 53%Z by lia.
  cbv iota.
  rewrite (Z_div_eucl_exact _ (Zpos m) (2 ^ 53)) by
    (rewrite ?Z.shiftl_mul_pow2; lia).
  rewrite new_location_exact, xorb_nilpotent.
  reflexivity.
Qed.

(** A finite [double] divided by 1.0 is itself. *)
Lemma double_div_one (s : bool) (m : positive) (e : Z) :
  Zpos (digits2_pos m) = 53%Z -> (-52 <= e <= 0)%Z ->
  double_div (S754_finite s m e) one = S754_finite s m e.
Proof.
  intros Hd He.
  unfold double_div, one, SFdiv, SFdiv_core_binary, fexp, emin, double_prec, double_emax.
  cbn [Zdigits2]. rewrite Hd.
  change (Zpos (digits2_pos 4503599627370496)) with 53%Z.
  replace (Z.min (Z.max (53 + e - (53 + -52) - 53) (3 - 1024 - 53)) (e - -52))%Z
    with (e - 1)%Z by lia.
  replace (e - -52 - (e - 1))%Z with 53%Z by lia.
  cbv iota.
  rewrite (Z_div_eucl_exact _ 4503599627370496 (Zpos m~0)) by
    (rewrite ?Z.shiftl_mul_pow2; lia).
  rewrite new_location_exact, xorb_false_r.
  unfold binary_round_aux, shr_fexp, fexp, emin.
  cbn [Zdigits2 digits2_pos shr_record_of_loc].
  rewrite Pos2Z.inj_succ, Hd.
  replace (Z.max (Z.succ 53 + (e - 1) - 53) (3 - 1024 - 53) - (e - 1))%Z
    with 1%Z by lia.
  cbn [shr SpecFloat.iter_pos shr_1 shr_m loc_of_shr_record round_nearest_even
         Zdigits2 shr_record_of_loc orb].
  rewrite Hd.
  replace (e - 1 + 1)%Z with e by lia.
  replace (Z.max (53 + e - 53) (3 - 1024 - 53) - e)%Z with 0%Z by lia.
  cbn [shr shr_m].
  replace (e <=? 1024 - 53)%Z with true by (symmetry; apply Z.leb_le; lia).
  reflexivity.
Qed.

(** *** What [divide_by] computes *)

Lemma double_of_int_representable (n : Z) :
  representable n -> (n <> 0)%Z ->
  exists (m : positive) (e : Z),
    double_of_int n = S754_finite (n <? 0)%Z m e /\
    Zpos (digits2_pos m) = 53%Z /\ (-52 <= e <= 0)%Z.
Proof.
  intros Hn Hnz. pose proof (representable_small n Hn) as Hs.
  rewrite (double_of_int_small n Hs).
  destruct n as [| p | p]; [contradiction | |];
    exists (double_mantissa p), (double_exponent p);
    assert (Hk : (Zpos (digits2_pos p) <= 53)%Z)
      by (apply digits2_pos_le; simpl in Hs; lia);
    (split; [reflexivity |]);
    (split; [apply double_mantissa_digits; exact Hk |]);
    unfold double_exponent; lia.
Qed.

Lemma double_of_int_value (n : Z) :
  representable n -> double_to_Q (double_of_int n) = Some (Qred (inject_Z n)).
Proof.
  intros Hn. pose proof (representable_small n Hn) as Hs.
  rewrite (double_of_int_small n Hs).
  destruct n as [| p | p]; [reflexivity | |];
    apply double_to_Q_small; apply digits2_pos_le; simpl in Hs; lia.
Qed.

(** X3. The conversion of an [int] to [double] loses nothing: the [double] is a
    number and stands for the integer itself. *)
Theorem double_of_int_exact (n : Z) :
  representable n ->
  is_number (double_of_int n) = true /\
  double_to_Q (double_of_int n) = Some (Qred (inject_Z n)).
Proof.
  intros Hn. split; [| exact (double_of_int_value n Hn)].
  rewrite (double_of_int_small n (representable_small n Hn)).
  destruct n; reflexivity.
Qed.

Lemma double_of_int_exact_witness :
  representable (-2147483648)%Z /\
  double_to_Q (double_of_int (-2147483648)%Z) =
    Some (Qred (inject_Z (-2147483648)%Z)).
Proof.
  assert (H : representable (-2147483648)%Z)
    by (unfold representable, INT_MIN, INT_MAX; lia).
  split; [exact H | exact (proj2 (double_of_int_exact (-2147483648)%Z H))].
Defined.

(** X4. Whatever the policy and the strategy, dividing an [int] by 1 gives the
    [double] of that [int], which stands for it exactly. *)
Theorem divide_by_one (F : FailureMethod) (P : Policy) (n : Z) :
  representable n ->
  divide_by F P n 1%Z = success double DivideByError P (double_of_int n) /\
  double_to_Q (double_of_int n) = Some (Qred (inject_Z n)).
Proof.
  intros Hn. split; [| exact (double_of_int_value n Hn)].
  rewrite divide_by_nonzero by discriminate. f_equal.
  destruct (Z.eq_dec n 0) as [-> | Hnz]; [reflexivity |].
  destruct (double_of_int_representable n Hn Hnz) as (m & e & -> & Hd & He).
  exact (double_div_one _ m e Hd He).
Qed.

Lemma divide_by_one_witness :
  representable 2147483647%Z /\
  divide_by Functor Expected 2147483647%Z 1%Z =
    success double DivideByError Expected (double_of_int 2147483647%Z).
Proof.
  assert (H : representable 2147483647%Z)
    by (unfold representable, INT_MIN, INT_MAX; lia).
  split; [exact H | exact (proj1 (divide_by_one Functor Expected 2147483647%Z H))].
Defined.

(** X5. An [int] other than zero divided by itself gives 1.0. *)
Theorem divide_by_self (F : FailureMethod) (P : Policy) (n : Z) :
  representable n -> (n <> 0)%Z ->
  divide_by F P n n = success double DivideByError P one /\
  double_to_Q one = Some (1 # 1).
Proof.
  intros Hn Hnz. split; [| reflexivity].
  rewrite divide_by_nonzero by exact Hnz. f_equal.
  destruct (double_of_int_representable n Hn Hnz) as (m & e & -> & Hd & He).
  exact (double_div_self _ m e Hd He).
Qed.

Lemma divide_by_self_witness :
  representable (-7)%Z /\ (-7 <> 0)%Z /\
  divide_by Callable Exceptions (-7)%Z (-7)%Z =
    success double DivideByError Exceptions one.
Proof.
  assert (H : representable (-7)%Z)
    by (unfold representable, INT_MIN, INT_MAX; lia).
  assert (Hnz : (-7 <> 0)%Z) by discriminate.
  split; [exact H |]. split; [exact Hnz |].
  exact (proj1 (divide_by_self Callable Exceptions (-7)%Z H Hnz)).
Defined.

(** X6. Zero divided by an [int] other than zero is a zero, and its sign is the
    sign of the denominator: 0 / -5 is the negative zero. *)
Theorem divide_by_zero_numerator (F : FailureMethod) (P : Policy) (d : Z) :
  representable d -> (d <> 0)%Z ->
  divide_by F P 0%Z d = success double DivideByError P (S754_zero (d <? 0)%Z).
Proof.
  intros Hd Hnz. rewrite divide_by_nonzero by exact Hnz. f_equal.
  destruct (double_of_int_representable d Hd Hnz) as (m & e & -> & _ & _).
  reflexivity.
Qed.

Lemma divide_by_zero_numerator_witness :
  representable (-5)%Z /\ (-5 <> 0)%Z /\
  divide_by InPlace Exceptions 0%Z (-5)%Z =
    success double DivideByError Exceptions (S754_zero true).
Proof.
  assert (H : representable (-5)%Z)
    by (unfold representable, INT_MIN, INT_MAX; lia).
  assert (Hnz : (-5 <> 0)%Z) by discriminate.
  split; [exact H |]. split; [exact Hnz |].
  exact (divide_by_zero_numerator InPlace Exceptions (-5)%Z H Hnz).
Defined.

(** X7. For [int] operands and a denominator other than zero the quotient is a
    number: a zero or a finite value, never an infinity and never a NaN; and
    its sign bit is set exactly when one operand is negative and the other
    is not. *)
Theorem divide_by_is_number (F : FailureMethod) (P : Policy) (n d : Z) :
  representable n -> representable d -> (d <> 0)%Z ->
  exists q : double,
    divide_by F P n d = success double DivideByError P q /\
    is_number q = true /\
    signbit q = xorb (n <? 0)%Z (d <? 0)%Z.
Proof.
  intros Hn Hd Hnz.
  exists (double_div (double_of_int n) (double_of_int d)).
  split; [apply divide_by_nonzero; exact Hnz |].
  destruct (double_of_int_representable d Hd Hnz) as (my & ey & -> & Hdy & Hey).
  destruct (Z.eq_dec n 0) as [-> | Hn0]; [split; reflexivity |].
  destruct (double_of_int_representable n Hn Hn0) as (mx & ex & -> & Hdx & Hex).
  apply double_div_finite_is_number; assumption.
Qed.

Lemma divide_by_is_number_witness :
  representable (-2147483648)%Z /\ representable (-1)%Z /\ (-1 <> 0)%Z /\
  exists q : double,
    divide_by Conversion Exceptions (-2147483648)%Z (-1)%Z =
      success double DivideByError Exceptions q /\
    is_number q = true /\
    signbit q = false.
Proof.
  assert (H : representable (-2147483648)%Z)
    by (unfold representable, INT_MIN, INT_MAX; lia).
  assert (H' : representable (-1)%Z)
    by (unfold representable, INT_MIN, INT_MAX; lia).
  assert (Hnz : (-1 <> 0)%Z) by discriminate.
  split; [exact H |]. split; [exact H' |]. split; [exact Hnz |].
  exact (divide_by_is_number Conversion Exceptions (-2147483648)%Z (-1)%Z H H' Hnz).
Defined.

(** X8. Changing the sign of one operand changes the sign of the quotient, and
    changing both leaves it as it is, when the numerator is not zero and the
    operands and their opposites are values of [int]. *)
Theorem divide_by_signs (F : FailureMethod) (P : Policy) (n d : Z) :
  representable n -> representable (- n)%Z ->
  representable d -> representable (- d)%Z ->
  (n <> 0)%Z -> (d <> 0)%Z ->
  exists q : double,
    divide_by F P n d = success double DivideByError P q /\
    divide_by F P (- n)%Z d = success double DivideByError P (double_opp q) /\
    divide_by F P n (- d)%Z = success double DivideByError P (double_opp q) /\
    divide_by F P (- n)%Z (- d)%Z = success double DivideByError P q.
Proof.
  intros _ _ _ _ Hn Hd.
  exists (double_div (double_of_int n) (double_of_int d)).
  rewrite !divide_by_nonzero by lia.
  rewrite !(double_of_int_opp n Hn), !(double_of_int_opp d Hd).
  rewrite !double_div_opp_l, !double_div_opp_r, double_opp_involutive.
  repeat split.
Qed.

Lemma divide_by_signs_witness :
  representable 3%Z /\ representable (- 3)%Z /\
  representable 4%Z /\ representable (- 4)%Z /\
  (3 <> 0)%Z /\ (4 <> 0)%Z /\
  exists q : double,
    divide_by InPlace Exceptions 3%Z 4%Z =
      success double DivideByError Exceptions q /\
    divide_by InPlace Exceptions (- 3)%Z 4%Z =
      success double DivideByError Exceptions (double_opp q).
Proof.
  assert (R3 : representable 3%Z)
    by (unfold representable, INT_MIN, INT_MAX; lia).
  assert (R3' : representable (- 3)%Z)
    by (unfold representable, INT_MIN, INT_MAX; lia).
  assert (R4 : representable 4%Z)
    by (unfold representable, INT_MIN, INT_MAX; lia).
  assert (R4' : representable (- 4)%Z)
    by (unfold representable, INT_MIN, INT_MAX; lia).
  assert (H3 : (3 <> 0)%Z) by discriminate.
  assert (H4 : (4 <> 0)%Z) by discriminate.
  split; [exact R3 |]. split; [exact R3' |].
  split; [exact R4 |]. split; [exact R4' |].
  split; [exact H3 |]. split; [exact H4 |].
  destruct (divide_by_signs InPlace Exceptions 3%Z 4%Z R3 R3' R4 R4' H3 H4)
    as (q & Hq & Hq' & _).
  exists q. split; [exact Hq | exact Hq'].
Defined.

(** *** The quotient is accurate *)

Lemma shr_1_div2 (r : shr_record) :
  (0 <= shr_m r)%Z -> shr_m (shr_1 r) = (shr_m r / 2)%Z.
Proof.
  intros Hr. rewrite <- Z.div2_div.
  destruct r as [m r s]. destruct m as [| [p | p |] | p]; try reflexivity.
  simpl in Hr. lia.
Qed.

Lemma iter_pos_shr_1_div (p : positive) :
  forall r : shr_record,
    (0 <= shr_m r)%Z ->
    shr_m (SpecFloat.iter_pos shr_1 p r) = (shr_m r / 2 ^ Zpos p)%Z.
Proof.
  induction p as [p IH | p IH |]; intros r Hr; simpl SpecFloat.iter_pos.
  - pose proof (shr_1_bounds r Hr) as H1.
    assert (H2 : (0 <= shr_m (SpecFloat.iter_pos shr_1 p (shr_1 r)))%Z).
    { rewrite IH by lia. apply Z.div_pos; lia. }
    rewrite IH by exact H2. rewrite IH by lia. rewrite shr_1_div2 by exact Hr.
    rewrite !Z.div_div by lia. f_equal.
    assert (E : (2 ^ Zpos p~1 = 2 * (2 ^ Zpos p * 2 ^ Zpos p))%Z).
    { rewrite <- Z.pow_add_r, <- Z.pow_succ_r by lia. f_equal. lia. }
    lia.
  - assert (H2 : (0 <= shr_m (SpecFloat.iter_pos shr_1 p r))%Z).
    { rewrite IH by lia. apply Z.div_pos; lia. }
    rewrite IH by exact H2. rewrite IH by lia.
    rewrite Z.div_div by lia. f_equal.
    rewrite <- Z.pow_add_r by lia. f_equal. lia.
  - rewrite shr_1_div2 by exact Hr. reflexivity.
Qed.

Lemma digits2_pos_ge (p : positive) : (2 ^ (Zpos (digits2_pos p) - 1) <= Zpos p)%Z.
Proof.
  induction p as [p IH | p IH |]; simpl digits2_pos.
  - rewrite Pos2Z.inj_succ.
    replace (Z.succ (Zpos (digits2_pos p)) - 1)%Z
      with (Z.succ (Zpos (digits2_pos p) - 1)) by lia.
    rewrite Z.pow_succ_r by lia. lia.
  - rewrite Pos2Z.inj_succ.
    replace (Z.succ (Zpos (digits2_pos p)) - 1)%Z
      with (Z.succ (Zpos (digits2_pos p) - 1)) by lia.
    rewrite Z.pow_succ_r by lia. lia.
  - reflexivity.
Qed.

(** One normalisation step on a mantissa of at least 53 bits: the bits
    beyond 53 are shifted out and the exponent grows by their number. *)
Lemma shr_fexp_normal (m e : Z) (l : location) (B : Z) :
  (2 ^ 52 <= m < 2 ^ B)%Z -> (-1000 <= e)%Z ->
  exists k : Z,
    (0 <= k <= B - 53)%Z /\
    snd (shr_fexp double_prec double_emax m e l) = (e + k)%Z /\
    shr_m (fst (shr_fexp double_prec double_emax m e l)) = (m / 2 ^ k)%Z /\
    (2 ^ 52 <= m / 2 ^ k)%Z.
Proof.
  intros Hm He.
  destruct m as [| p | p]; try lia.
  assert (HB : (0 <= B)%Z).
  { destruct (Z_lt_le_dec B 0) as [Hneg | Hok]; [| exact Hok].
    rewrite (Z.pow_neg_r 2 B Hneg) in Hm. lia. }
  pose proof (digits2_pos_ge p) as Hge.
  pose proof (digits2_pos_lt p) as Hlt.
  pose proof (digits2_pos_le p B HB ltac:(lia)) as Hle.
  assert (H53 : (53 <= Zpos (digits2_pos p))%Z).
  { destruct (Z_lt_le_dec (Zpos (digits2_pos p)) 53) as [Hs | Hok]; [| exact Hok].
    assert (2 ^ Zpos (digits2_pos p) <= 2 ^ 52)%Z by (apply Z.pow_le_mono_r; lia).
    lia. }
  exists (Zpos (digits2_pos p) - 53)%Z.
  assert (Hlow : (2 ^ 52 <= Zpos p / 2 ^ (Zpos (digits2_pos p) - 53))%Z).
  { apply Z.div_le_lower_bound; [apply Z.pow_pos_nonneg; lia |].
    rewrite <- Z.pow_add_r by lia.
    replace (Zpos (digits2_pos p) - 53 + 52)%Z with (Zpos (digits2_pos p) - 1)%Z by lia.
    exact Hge. }
  split; [lia |].
  unfold shr_fexp, shr, fexp, emin, double_prec, double_emax. cbn [Zdigits2].
  replace (Z.max (Zpos (digits2_pos p) + e - 53) (3 - 1024 - 53) - e)%Z
    with (Zpos (digits2_pos p) - 53)%Z by lia.
  destruct (Zpos (digits2_pos p) - 53)%Z as [| k | k] eqn:Hk; try lia;
    simpl fst; simpl snd.
  - rewrite shr_m_of_loc, Z.add_0_r. simpl (2 ^ 0)%Z. rewrite Z.div_1_r.
    simpl (2 ^ 0)%Z in Hlow. rewrite Z.div_1_r in Hlow. auto.
  - rewrite iter_pos_shr_1_div by (rewrite shr_m_of_loc; lia).
    rewrite shr_m_of_loc. auto.
Qed.

(** Rounding a mantissa of at least 53 bits: the result is finite, and in
    units of the last place of the input it is within one unit of the last
    place of the result from the interval between the input and its
    successor. *)
Lemma binary_round_aux_accurate (s : bool) (q0 e0 : Z) (l : location) :
  (2 ^ 52 <= q0 < 2 ^ 106)%Z -> (-1000 <= e0 <= 0)%Z ->
  exists (m : positive) (k : Z),
    binary_round_aux double_prec double_emax s q0 e0 l = S754_finite s m (e0 + k) /\
    (0 <= k)%Z /\
    ((Zpos m - 1) * 2 ^ k <= q0)%Z /\
    (q0 + 1 <= (Zpos m + 1) * 2 ^ k)%Z.
Proof.
  intros Hq He. unfold binary_round_aux.
  destruct (shr_fexp_normal q0 e0 l 106 Hq ltac:(lia)) as (k1 & Hk1 & He1 & Hm1 & Hlow1).
  destruct (shr_fexp double_prec double_emax q0 e0 l) as [mrs' e'].
  simpl fst in Hm1. simpl snd in He1. subst e'.
  pose proof (round_nearest_even_bounds (shr_m mrs') (loc_of_shr_record mrs')) as Hr.
  set (m1 := round_nearest_even (shr_m mrs') (loc_of_shr_record mrs')) in *.
  rewrite Hm1 in Hr.
  assert (HA : (0 < 2 ^ k1)%Z) by (apply Z.pow_pos_nonneg; lia).
  pose proof (Z.mul_div_le q0 (2 ^ k1) HA) as Hd1.
  pose proof (Z.mul_succ_div_gt q0 (2 ^ k1) HA) as Hd1'.
  set (m' := (q0 / 2 ^ k1)%Z) in *.
  assert (Hm1' : (2 ^ 52 <= m1 < 2 ^ 107)%Z).
  { assert (m' <= q0)%Z by nia.
    change (2 ^ 107)%Z with (2 * 2 ^ 106)%Z. lia. }
  destruct (shr_fexp_normal m1 (e0 + k1) loc_Exact 107 Hm1' ltac:(lia))
    as (k2 & Hk2 & He2 & Hm2 & Hlow2).
  destruct (shr_fexp double_prec double_emax m1 (e0 + k1) loc_Exact) as [mrs'' e''].
  simpl fst in Hm2. simpl snd in He2. subst e''.
  assert (HB : (0 < 2 ^ k2)%Z) by (apply Z.pow_pos_nonneg; lia).
  pose proof (Z.mul_div_le m1 (2 ^ k2) HB) as Hd2.
  pose proof (Z.mul_succ_div_gt m1 (2 ^ k2) HB) as Hd2'.
  rewrite Hm2. set (mm := (m1 / 2 ^ k2)%Z) in *.
  destruct mm as [| mp | mp] eqn:Hmm; try lia.
  unfold double_emax, double_prec.
  replace (e0 + k1 + k2 <=? 1024 - 53)%Z with true by (symmetry; apply Z.leb_le; lia).
  exists mp, (k1 + k2)%Z.
  rewrite Z.pow_add_r by lia.
  split; [f_equal; lia |]. split; [lia |].
  split; nia.
Qed.

Lemma double_div_accurate (sx sy : bool) (mx my : positive) (ex ey : Z) :
  Zpos (digits2_pos mx) = 53%Z -> Zpos (digits2_pos my) = 53%Z ->
  (-52 <= ex <= 0)%Z -> (-52 <= ey <= 0)%Z ->
  exists (m : positive) (k : Z),
    double_div (S754_finite sx mx ex) (S754_finite sy my ey) =
      S754_finite (xorb sx sy) m (ex - ey - 53 + k) /\
    (0 <= k)%Z /\
    ((Zpos m - 1) * 2 ^ k * Zpos my <= Zpos mx * 2 ^ 53)%Z /\
    (Zpos mx * 2 ^ 53 <= (Zpos m + 1) * 2 ^ k * Zpos my)%Z.
Proof.
  intros Hdx Hdy Hex Hey.
  unfold double_div, SFdiv, SFdiv_core_binary, fexp, emin, double_prec, double_emax.
  cbn [Zdigits2]. rewrite Hdx, Hdy.
  replace (Z.min (Z.max (53 + ex - (53 + ey) - 53) (3 - 1024 - 53)) (ex - ey))%Z
    with (ex - ey - 53)%Z by lia.
  replace (ex - ey - (ex - ey - 53))%Z with 53%Z by lia.
  cbv iota.
  pose proof (Z_div_mod (Z.shiftl (Zpos mx) 53) (Zpos my) ltac:(lia)) as Hdiv.
  destruct (Z.div_eucl (Z.shiftl (Zpos mx) 53) (Zpos my)) as [q r].
  rewrite Z.shiftl_mul_pow2 in Hdiv by lia. destruct Hdiv as [Heq Hr].
  pose proof (digits2_pos_lt mx) as Hmx. rewrite Hdx in Hmx.
  pose proof (digits2_pos_lt my) as Hmy. rewrite Hdy in Hmy.
  pose proof (digits2_pos_ge mx) as Hmx'. rewrite Hdx in Hmx'.
  pose proof (digits2_pos_ge my) as Hmy'. rewrite Hdy in Hmy'.
  change (53 - 1)%Z with 52%Z in *.
  assert (H106 : (2 ^ 106 = 2 ^ 53 * 2 ^ 53)%Z) by reflexivity.
  assert (H105 : (2 ^ 53 = 2 * 2 ^ 52)%Z) by reflexivity.
  assert (Hq : (2 ^ 52 <= q < 2 ^ 106)%Z) by nia.
  destruct (binary_round_aux_accurate (xorb sx sy) q (ex - ey - 53)
              (new_location (Zpos my) r) Hq ltac:(lia))
    as (m & k & Hres & Hk & Hlo & Hhi).
  exists m, k. split; [exact Hres |]. split; [exact Hk |].
  assert (HK : (0 < 2 ^ k)%Z) by (apply Z.pow_pos_nonneg; lia).
  split; nia.
Qed.

Lemma double_mantissa_value (p : positive) :
  (Zpos (digits2_pos p) <= 53)%Z ->
  Zpos (double_mantissa p) = (Zpos p * 2 ^ (- double_exponent p))%Z.
Proof.
  intros Hk. unfold double_mantissa, double_exponent.
  destruct (53 - Zpos (digits2_pos p))%Z as [| d | d] eqn:Hd; try lia.
  - replace (- (Zpos (digits2_pos p) - 53))%Z with 0%Z by lia. simpl. lia.
  - replace (- (Zpos (digits2_pos p) - 53))%Z with (Zpos d) by lia.
    apply Zpos_iter_xO.
Qed.

(** The [double] of an [int] other than zero: the sign of the integer, a
    mantissa of 53 bits and the exponent that makes the value the integer. *)
Lemma double_of_int_shape (n : Z) :
  representable n -> (n <> 0)%Z ->
  exists (m : positive) (e : Z),
    double_of_int n = S754_finite (n <? 0)%Z m e /\
    Zpos (digits2_pos m) = 53%Z /\ (-52 <= e <= 0)%Z /\
    Zpos m = (Z.abs n * 2 ^ (- e))%Z.
Proof.
  intros Hn Hnz. pose proof (representable_small n Hn) as Hs.
  rewrite (double_of_int_small n Hs).
  destruct n as [| p | p]; [contradiction | |];
    exists (double_mantissa p), (double_exponent p);
    assert (Hk : (Zpos (digits2_pos p) <= 53)%Z)
      by (apply digits2_pos_le; simpl in Hs; lia);
    (split; [reflexivity |]);
    (split; [apply double_mantissa_digits; exact Hk |]);
    (split; [unfold double_exponent; lia |]);
    apply double_mantissa_value; exact Hk.
Qed.

Lemma Q_lower_bound (M U V N D : Z) :
  (0 < U)%Z -> (0 < V)%Z -> (0 < D)%Z ->
  ((M - 1) * U * D <= N * V)%Z ->
  (inject_Z M - 1) * (inject_Z U / inject_Z V) <= inject_Z N / inject_Z D.
Proof.
  intros HU HV HD H.
  destruct V as [| v | v]; try lia. destruct D as [| d | d]; try lia.
  unfold Qle, Qdiv, Qmult, Qinv, Qminus, Qplus, Qopp, inject_Z. simpl.
  rewrite !Z.mul_1_r. rewrite ?Pos.mul_1_l, ?Pos.mul_1_r.
  replace (M + -1)%Z with (M - 1)%Z by lia. lia.
Qed.

Lemma Q_upper_bound (M U V N D : Z) :
  (0 < U)%Z -> (0 < V)%Z -> (0 < D)%Z ->
  (N * V <= (M + 1) * U * D)%Z ->
  inject_Z N / inject_Z D <= (inject_Z M + 1) * (inject_Z U / inject_Z V).
Proof.
  intros HU HV HD H.
  destruct V as [| v | v]; try lia. destruct D as [| d | d]; try lia.
  unfold Qle, Qdiv, Qmult, Qinv, Qminus, Qplus, Qopp, inject_Z. simpl.
  rewrite !Z.mul_1_r. rewrite ?Pos.mul_1_l, ?Pos.mul_1_r. lia.
Qed.

Lemma Qpower_2_difference (u v : Z) :
  (0 <= u)%Z -> (0 <= v)%Z ->
  2 ^ (u - v) == inject_Z (2 ^ u) / inject_Z (2 ^ v).
Proof.
  intros Hu Hv. rewrite Qpower_minus by discriminate.
  rewrite !Zpower_Qpower by assumption. reflexivity.
Qed.

(** X9. The quotient of two [int]s other than zero is finite, has the sign of
    the exact quotient, and its magnitude [m * 2^e] is within [2^e], one
    unit in its last place, of the exact quotient of the magnitudes. *)
Theorem divide_by_accurate (F : FailureMethod) (P : Policy) (n d : Z) :
  representable n -> representable d -> (n <> 0)%Z -> (d <> 0)%Z ->
  exists (m : positive) (e : Z),
    divide_by F P n d =
      success double DivideByError P
        (S754_finite (xorb (n <? 0)%Z (d <? 0)%Z) m e) /\
    (inject_Z (Zpos m) - 1) * 2 ^ e <= inject_Z (Z.abs n) / inject_Z (Z.abs d) /\
    inject_Z (Z.abs n) / inject_Z (Z.abs d) <= (inject_Z (Zpos m) + 1) * 2 ^ e.
Proof.
  intros Hn Hd Hn0 Hd0.
  destruct (double_of_int_shape n Hn Hn0) as (mx & ex & Hx & Hdx & Hex & Hvx).
  destruct (double_of_int_shape d Hd Hd0) as (my & ey & Hy & Hdy & Hey & Hvy).
  destruct (double_div_accurate (n <? 0)%Z (d <? 0)%Z mx my ex ey Hdx Hdy Hex Hey)
    as (m & k & Hres & Hk & Hlo & Hhi).
  exists m, (ex - ey - 53 + k)%Z.
  split.
  { rewrite divide_by_nonzero by exact Hd0. rewrite Hx, Hy, Hres. reflexivity. }
  rewrite Hvx, Hvy in Hlo, Hhi.
  replace (ex - ey - 53 + k)%Z with ((k + - ey) - (- ex + 53))%Z by lia.
  rewrite Qpower_2_difference by lia.
  rewrite !Z.pow_add_r by lia.
  assert (HK : (0 < 2 ^ k)%Z) by (apply Z.pow_pos_nonneg; lia).
  assert (HX : (0 < 2 ^ (- ex))%Z) by (apply Z.pow_pos_nonneg; lia).
  assert (HY : (0 < 2 ^ (- ey))%Z) by (apply Z.pow_pos_nonneg; lia).
  assert (H53 : (0 < 2 ^ 53)%Z) by reflexivity.
  split.
  - apply Q_lower_bound; nia.
  - apply Q_upper_bound; nia.
Qed.

Lemma divide_by_accurate_witness :
  representable 1%Z /\ representable 3%Z /\ (1 <> 0)%Z /\ (3 <> 0)%Z /\
  exists (m : positive) (e : Z),
    divide_by InPlace Exceptions 1%Z 3%Z =
      success double DivideByError Exceptions (S754_finite false m e) /\
    (inject_Z (Zpos m) - 1) * 2 ^ e <= inject_Z 1 / inject_Z 3 /\
    inject_Z 1 / inject_Z 3 <= (inject_Z (Zpos m) + 1) * 2 ^ e.
Proof.
  assert (H1 : representable 1%Z) by (unfold representable, INT_MIN, INT_MAX; lia).
  assert (H3 : representable 3%Z) by (unfold representable, INT_MIN, INT_MAX; lia).
  assert (N1 : (1 <> 0)%Z) by discriminate.
  assert (N3 : (3 <> 0)%Z) by discriminate.
  split; [exact H1 |]. split; [exact H3 |]. split; [exact N1 |]. split; [exact N3 |].
  exact (divide_by_accurate InPlace Exceptions 1%Z 3%Z H1 H3 N1 N3).
Defined.

(** ** The two policies of [divide_by] side by side *)

(** X1. On every input the two policies tell the same story and cause no event:
    where one returns a quotient the other returns a result holding that
    quotient, and where one throws the other returns an error whose [str()]
    is the [what()] of the exception. *)
Theorem divide_by_policies_agree (F : FailureMethod) (n d : Z) :
  events (divide_by F Exceptions n d) = [] /\
  events (divide_by F Expected n d) = [] /\
  match result (divide_by F Exceptions n d) with
  | Returned q =>
      result (divide_by F Expected n d) = Returned (Expected_value q)
  | Thrown ex =>
      exists e : DivideByError,
        result (divide_by F Expected n d) = Returned (Expected_error e) /\
        DivideByError.str e = description ex
  end.
Proof.
  unfold divide_by. destruct (d =? 0)%Z.
  - destruct F; (split; [reflexivity |]); (split; [reflexivity |]);
      exists (DivideByError.Build DivideByError.DivideByZero); split; reflexivity.
  - repeat split.
Qed.

(** X2. Under [Expected] the operation always returns, and its result holds a
    value exactly when the denominator is not zero; when it is zero the
    result holds the error [DivideByZero], whatever the numerator. *)
Theorem divide_by_Expected_has_value (F : FailureMethod) (n d : Z) :
  exists x : expected double DivideByError,
    result (divide_by F Expected n d) = Returned x /\
    has_value x = negb (d =? 0)%Z /\
    error x =
      if (d =? 0)%Z
      then Some (DivideByError.Build DivideByError.DivideByZero)
      else None.
Proof.
  unfold divide_by. destruct (d =? 0)%Z.
  - exists (Expected_error (DivideByError.Build DivideByError.DivideByZero)).
    destruct F; repeat split.
  - eexists. repeat split.
Qed.

(** ** The error types describe themselves consistently *)

(** For every kind of error, the exception made in place, the exception made
    by the functor and the exception an error converts to have the
    description that [str()] gives, and the functor and list-initialisation
    make the same error: the arguments of the four strategies are
    equivalent for every kind, not only for the one that exists today. *)
Theorem DivideByError_consistent (k : DivideByError.Kind) :
  equivalent_arguments (Functor := DivideByErrorFunctor)
    (fun k : DivideByError.Kind => pure (Unexpected (DivideByError.Build k)))
    (fun k : DivideByError.Kind => pure {| what_arg := DivideByError.err_to_str k |})
    (DivideByError.Build k) k /\
  what (DivideByError.exception (DivideByError.Build k)) =
    DivideByError.str (DivideByError.Build k) /\
  what (DivideByError.exception_of_kind k) = DivideByError.str (DivideByError.Build k) /\
  what (DivideByErrorFunctor.exception k) = DivideByError.str (DivideByError.Build k).
Proof. repeat split. Qed.

(** ** The operation of the demonstration program *)

(** X10. The instantiation of [divide_by<P>] of [example.cpp] compiles except for
    the policy [Exceptions] in a build whose default policy is [Expected]. *)
Theorem example_divide_by_compiles (cfg : BuildConfig) (P : Policy) (n d : Z) :
  ExampleCpp.divide_by cfg P n d = None <->
  (DefaultPolicy cfg = Expected /\ P = Exceptions).
Proof.
  unfold ExampleCpp.divide_by.
  destruct (DefaultPolicy cfg), P; simpl; split;
    try discriminate; try (intros [H1 H2]; discriminate); auto.
Qed.

Lemma example_divide_by_compiles_witness :
  ExampleCpp.divide_by (Some Expected) Exceptions 1%Z 2%Z = None.
Proof.
  exact (proj2 (example_divide_by_compiles (Some Expected) Exceptions 1%Z 2%Z)
           (conj eq_refl eq_refl)).
Defined.

(** X11. Where [divide_by<P>] of [example.cpp] compiles it does what it would
    do with the policy handed on to [success]: it fails through [make_failure] with the policy [P] when the
    denominator is zero and otherwise succeeds with the quotient in the
    shape of the policy [P]. *)
Theorem example_divide_by_forwards (cfg : BuildConfig) (P : Policy) (n d : Z)
    (c : Comp (ResultType double ExampleCpp.DivideByError P)) :
  ExampleCpp.divide_by cfg P n d = Some c ->
  c = if (d =? 0)%Z
      then @make_failure double ExampleCpp.DivideByError P _
             ExampleCpp.DivideByError_ExceptionConstructable
             ExampleCpp.DivideByError_ListInitializable
             ExampleCpp.DivideByError.DivideByZero
      else success double ExampleCpp.DivideByError P
             (double_div (double_of_int n) (double_of_int d)).
Proof.
  unfold ExampleCpp.divide_by.
  destruct (DefaultPolicy cfg), P; simpl; try discriminate;
    intros [= <-]; destruct (d =? 0)%Z; reflexivity.
Qed.

Lemma example_divide_by_forwards_witness :
  ExampleCpp.divide_by None Expected 1%Z 2%Z =
    Some (Effect [] (Returned (Expected_value one_half))) /\
  Effect [] (Returned (Expected_value one_half)) =
    success double ExampleCpp.DivideByError Expected
      (double_div (double_of_int 1%Z) (double_of_int 2%Z)).
Proof.
  assert (H : ExampleCpp.divide_by None Expected 1%Z 2%Z =
              Some (Effect [] (Returned (Expected_value one_half))))
    by reflexivity.
  split; [exact H |].
  exact (example_divide_by_forwards None Expected 1%Z 2%Z _ H).
Defined.

(** X12. The program compiles exactly in the builds whose default policy is
    [Exceptions]; there it writes four lines (the quotient of 1 by 2, and
    the same message three times, caught, returned and caught again) and
    returns 0: no exception leaves [main]. *)
Theorem main_runs (format_double : double -> string) (cfg : BuildConfig) :
  (main format_double cfg = None <-> DefaultPolicy cfg = Expected) /\
  (DefaultPolicy cfg = Exceptions ->
   main format_double cfg =
   Some (Effect
           [format_double one_half;
            "Caught: Division by Zero";
            "Unexpected: Division by Zero";
            "Caught: Division by Zero"]
           (Returned 0%Z))).
Proof.
  unfold main, ExampleCpp.divide_by.
  destruct (DefaultPolicy cfg); simpl.
  - split; [split; intros H; discriminate H | intros _; reflexivity].
  - split; [split; intros _; reflexivity | intros H; discriminate H].
Qed.

Lemma main_runs_witness :
  DefaultPolicy None = Exceptions /\
  main (fun _ => "0.5") None =
    Some (Effect
            ["0.5"; "Caught: Division by Zero"; "Unexpected: Division by Zero";
             "Caught: Division by Zero"]
            (Returned 0%Z)).
Proof.
  assert (H : DefaultPolicy None = Exceptions) by reflexivity.
  split; [exact H |].
  exact (proj2 (main_runs (fun _ => "0.5") None) H).
Defined.
